(** * Account rotation and health tracking of gemini-cli-openai

    A shallow embedding of [AccountHealthTracker] (account-health.ts) and of
    [MultiAccountManager] (multi-account-manager.ts), and the properties of
    the circuit breaker and of the rotator proved on it.
    multi-account-manager.ts holds two versions of the class; the one
    embedded here is the first, which keeps its rotation cursor in the KV
    namespace.

    Layout: the JavaScript values the code computes with ([JS]); the host a
    worker runs on, that is the KV namespace and the clock ([Host]), and the
    monad its methods run in; the two classes; two concrete hosts to run the
    code on ([Sim], [Blank]); runs and scenarios; then the facts, class by
    class, and the scenarios evaluated. *)

From Stdlib Require Import ZArith Lia Bool Ascii String List Sorted.
From stdpp Require Import base option list gmap strings.

Local Open Scope string_scope.
Local Open Scope Z_scope.

(* ================================================================== *)
(** ** JavaScript numbers and strings, as far as the code uses them *)
(* ================================================================== *)

Module JS.

(** A JS [number] holding an integer, [NaN] or an infinity.  The code only
  ever computes with integers (array indices, counters, millisecond
  timestamps); [-0] is identified with [0], which no operation used here
  distinguishes. *)
Inductive number : Type :=
| NaN
| Inf (negative : bool)
| Fin (z : Z).

Definition isNaN (x : number) : bool :=
match x with NaN => true | _ => false end.

(** [x < y] of the language: false as soon as one side is [NaN]. *)
Definition ltb (x y : number) : bool :=
match x, y with
| NaN, _ | _, NaN => false
| Inf true, Inf true => false
| Inf true, _ => true
| _, Inf true => false
| Inf false, _ => false
| Fin _, Inf false => true
| Fin a, Fin b => a <? b
end.

(** [x % y]: the remainder has the sign of the dividend; it is [NaN] for an
  infinite dividend or a zero divisor. *)
Definition rem (x y : number) : number :=
match x, y with
| Fin a, Fin b => if b =? 0 then NaN else Fin (Z.rem a b)
| Fin a, Inf _ => Fin a
| _, _ => NaN
end.

Definition add (x y : number) : number :=
match x, y with
| Fin a, Fin b => Fin (a + b)
| NaN, _ | _, NaN => NaN
| Inf s, Inf t => if Bool.eqb s t then Inf s else NaN
| Inf s, Fin _ | Fin _, Inf s => Inf s
end.

(** [arr[x]]: the element when [x] is an index of the array, [undefined]
  ([None]) otherwise. *)
Definition index {A : Type} (arr : list A) (x : number) : option A :=
match x with
| Fin z => if 0 <=? z then arr !! Z.to_nat z else None
| _ => None
end.

(** The length of an array, as a number. *)
Definition length_of {A : Type} (arr : list A) : number :=
Fin (Z.of_nat (length arr)).

(** *** Conversion of a mathematical integer to a double

  [round53] rounds a non-negative integer to a 53-bit significand, ties to
  even; a result of [2^1024] or more is an infinity. *)
Definition round53 (m : Z) : Z :=
let e := Z.log2 m - 52 in
if e <=? 0 then m
else
  let q := Z.shiftr m e in
  let r := m - Z.shiftl q e in
  let half := Z.shiftl 1 (e - 1) in
  let q' := if (half <? r) || ((r =? half) && Z.odd q) then q + 1 else q in
  Z.shiftl q' e.

Definition of_Z (z : Z) : number :=
let m := round53 (Z.abs z) in
if 2 ^ 1024 <=? m then Inf (z <? 0) else Fin (Z.sgn z * m).

(** *** Decimal digits *)

Definition digit_char (d : Z) : ascii :=
ascii_of_nat (48 + Z.to_nat d).

Definition digit_of (c : ascii) : option Z :=
let n := Z.of_nat (nat_of_ascii c) in
if (48 <=? n) && (n <=? 57) then Some (n - 48) else None.

(** The decimal digits of [n >= 0], most significant first, put in front of
  [acc]; [fuel] bounds the number of digits. *)
Fixpoint digits_go (fuel : nat) (n : Z) (acc : string) : string :=
match fuel with
| O => acc
| S fuel' =>
    let acc' := String (digit_char (n mod 10)) acc in
    if n <? 10 then acc' else digits_go fuel' (n / 10) acc'
end.

Definition decimal (n : Z) : string :=
digits_go (S (Z.to_nat (Z.log2 n))) n "".

(** [Number.prototype.toString()] and the [${x}] of a template literal, on
  the numbers above (integers are printed in plain decimal, which is what
  the language does below [1e21]). *)
Definition toString (x : number) : string :=
match x with
| NaN => "NaN"
| Inf false => "Infinity"
| Inf true => "-Infinity"
| Fin z => if z <? 0 then String "-" (decimal (- z)) else decimal z
end.

(** *** [parseInt(s, 10)] *)

(** White space and line terminators among the code units below 256. *)
Definition is_white_space (c : ascii) : bool :=
let n := nat_of_ascii c in
(Nat.eqb n 9 || Nat.eqb n 10 || Nat.eqb n 11 || Nat.eqb n 12
 || Nat.eqb n 13 || Nat.eqb n 32 || Nat.eqb n 160)%bool.

Fixpoint trim_start (s : string) : string :=
match s with
| String c rest => if is_white_space c then trim_start rest else s
| EmptyString => s
end.

(** The value of the longest prefix of decimal digits of [s], continuing the
  value [acc] read so far; [None] when no digit has been read. *)
Fixpoint leading_digits (s : string) (acc : option Z) : option Z :=
match s with
| String c rest =>
    match digit_of c with
    | Some d => leading_digits rest (Some (default 0 acc * 10 + d))
    | None => acc
    end
| EmptyString => acc
end.

Definition parseInt (s : string) : number :=
let s1 := trim_start s in
let '(sign, s2) :=
  match s1 with
  | String "-" rest => (-1, rest)
  | String "+" rest => (1, rest)
  | _ => (1, s1)
  end in
match leading_digits s2 None with
| None => NaN
| Some mathInt => of_Z (sign * mathInt)
end.

End JS.

Export JS(number, NaN, Inf, Fin).


(* ================================================================== *)
(** ** The host: exceptions, the KV namespace and the clock *)
(* ================================================================== *)

(** What a [throw] carries. [HostError] stands for whatever a failing call
    into the KV namespace raises. *)
Inductive exn : Type :=
  | Error (message : string)
  | TypeError (message : string)
  | HostError (message : string).

(** How the evaluation of a statement list ends: normally with a value, or
    abruptly with a thrown exception. *)
Inductive completion (A : Type) : Type :=
  | Normal (value : A)
  | Throw (e : exn).
Arguments Normal {A} value.
Arguments Throw {A} e.

(** [interface AccountHealth] of account-health.ts. Times are the
    milliseconds of [Date.now()]. *)
Record AccountHealth : Type := mkAccountHealth {
  isRateLimited : bool;
  lastRateLimitTime : Z;
  failureCount : Z;
  cooldownEnds : Z
}.

(** [h.isRateLimited = b] and [h.failureCount = n] on a record. *)
Definition set_isRateLimited (b : bool) (h : AccountHealth) : AccountHealth :=
  {| isRateLimited := b;
     lastRateLimitTime := lastRateLimitTime h;
     failureCount := failureCount h;
     cooldownEnds := cooldownEnds h |}.

Definition set_failureCount (n : Z) (h : AccountHealth) : AccountHealth :=
  {| isRateLimited := isRateLimited h;
     lastRateLimitTime := lastRateLimitTime h;
     failureCount := n;
     cooldownEnds := cooldownEnds h |}.

(** The calls the two classes make into their environment, over a state
    [W] of that environment (the store, other workers writing to it, the
    clock, the network):
    - [Date_now]: [Date.now()];
    - [KV_get k]: [env.GEMINI_CLI_KV.get(k)], a string or [null];
    - [KV_get_json k]: [env.GEMINI_CLI_KV.get<AccountHealth>(k, "json")];
    - [KV_put k v]: [env.GEMINI_CLI_KV.put(k, v)];
    - [KV_put_json k h ttl]:
      [env.GEMINI_CLI_KV.put(k, JSON.stringify(h), { expirationTtl: ttl })].
    Every KV call may throw. [KV_get_json] returns what the code types its
    result as, an [AccountHealth] or [null]; on a stored text that is not
    JSON the call throws. Nothing is assumed of the store: what a read
    returns after a write, and when a write that was not awaited lands, is
    up to the instance. *)
Class Host (W : Type) : Type := {
  Date_now : W -> Z * W;
  KV_get : string -> W -> completion (option string) * W;
  KV_get_json : string -> W -> completion (option AccountHealth) * W;
  KV_put : string -> string -> W -> completion unit * W;
  KV_put_json : string -> AccountHealth -> Z -> W -> completion unit * W
}.

(** The state one worker instance runs on: the tracker's
    [localHealth: Map<number, AccountHealth>] and the environment. *)
Record State (W : Type) : Type := mkState {
  localHealth : gmap Z AccountHealth;
  world : W
}.
Arguments mkState {W} localHealth world.
Arguments localHealth {W} s.
Arguments world {W} s.

(** Methods run in a state and exception monad; an exception keeps the
    state changes made before it was thrown. *)
Definition M (W A : Type) : Type := State W -> completion A * State W.

Definition ret {W A} (a : A) : M W A := fun st => (Normal a, st).

Definition throw {W A} (e : exn) : M W A := fun st => (Throw e, st).

Definition bind {W A B} (m : M W A) (k : A -> M W B) : M W B :=
  fun st =>
    match m st with
    | (Normal a, st') => k a st'
    | (Throw e, st') => (Throw e, st')
    end.

(** [try { m } catch (e) { handler e }] *)
Definition try_catch {W A} (m : M W A) (handler : exn -> M W A) : M W A :=
  fun st =>
    match m st with
    | (Normal a, st') => (Normal a, st')
    | (Throw e, st') => handler e st'
    end.

Notation "'let*' x ':=' m 'in' k" := (bind m (fun x => k))
  (at level 10, x pattern, m at level 100, k at level 200, only parsing).
Notation "m ';;' k" := (bind m (fun _ => k))
  (at level 100, k at level 200, right associativity, only parsing).

Section HostCalls.
Context {W : Type} `{Host W}.

Definition now_ : M W Z :=
  fun st => let '(t, w) := Date_now (world st) in
            (Normal t, mkState (localHealth st) w).

Definition call {A} (f : W -> completion A * W) : M W A :=
  fun st => let '(r, w) := f (world st) in (r, mkState (localHealth st) w).

(** [this.localHealth.get(accountId)] and [this.localHealth.set(...)] *)
Definition localHealth_get (accountId : Z) : M W (option AccountHealth) :=
  fun st => (Normal (localHealth st !! accountId), st).

Definition localHealth_set (accountId : Z) (h : AccountHealth) : M W unit :=
  fun st => (Normal tt, mkState (<[accountId := h]> (localHealth st)) (world st)).
End HostCalls.

(* ================================================================== *)
(** ** class AccountHealthTracker (account-health.ts) *)
(* ================================================================== *)

Definition DEFAULT_COOLDOWN_MS : Z := 60 * 1000.
Definition KV_HEALTH_KEY_PREFIX : string := "account_health_".

(** [`${KV_HEALTH_KEY_PREFIX}${accountId}`] *)
Definition health_key (accountId : Z) : string :=
  String.append KV_HEALTH_KEY_PREFIX (JS.toString (Fin accountId)).

(** [Math.ceil(a / b)] for integers [a] and [b > 0]. *)
Definition Math_ceil_div (a b : Z) : Z := - ((- a) / b).

(** [x || 0] on a number. *)
Definition or_zero (x : Z) : Z := if x =? 0 then 0 else x.

Section AccountHealthTracker.
Context {W : Type} `{Host W}.

Definition persistHealthToKV (accountId : Z) (health : AccountHealth) : M W unit :=
  let* now := now_ in
  let ttl := Math_ceil_div (cooldownEnds health - now) 1000 in
  if 0 <? ttl
  then call (KV_put_json (health_key accountId) health ttl)
  else ret tt.

Definition recordFailure (accountId : Z) : M W unit :=
  let* now := now_ in
  let cooldownEnds := now + DEFAULT_COOLDOWN_MS in
  let* previous := localHealth_get accountId in
  let health :=
    {| isRateLimited := true;
       lastRateLimitTime := now;
       failureCount :=
         or_zero (match previous with
                  | Some h => failureCount h
                  | None => 0      (* undefined || 0 *)
                  end) + 1;
       cooldownEnds := cooldownEnds |} in
  localHealth_set accountId health ;;
  (* not awaited; a rejection only reaches the .catch that logs it *)
  try_catch (persistHealthToKV accountId health) (fun _ => ret tt).

(** The part of [isAccountHealthy] after the local check: the [try] around
    the KV read, and the final [return true]. *)
Definition checkKV (accountId now : Z) : M W bool :=
  try_catch
    (let* kvHealth := call (KV_get_json (health_key accountId)) in
     match kvHealth with
     | Some kvHealth =>
         if now <? cooldownEnds kvHealth
         then localHealth_set accountId kvHealth ;; ret false
         else ret true
     | None => ret true
     end)
    (fun _ => ret true).

Definition isAccountHealthy (accountId : Z) : M W bool :=
  let* now := now_ in
  let* localStatus := localHealth_get accountId in
  match localStatus with
  | Some localStatus =>
      if now <? cooldownEnds localStatus then ret false
      else
        (if isRateLimited localStatus
         then localHealth_set accountId (set_isRateLimited false localStatus)
         else ret tt) ;;
        checkKV accountId now
  | None => checkKV accountId now
  end.

Definition recordSuccess (accountId : Z) : M W unit :=
  let* current := localHealth_get accountId in
  match current with
  | Some current =>
      if (0 <? failureCount current) && negb (isRateLimited current)
      then localHealth_set accountId (set_failureCount 0 current)
      else ret tt
  | None => ret tt
  end.
End AccountHealthTracker.

(* ================================================================== *)
(** ** class MultiAccountManager (multi-account-manager.ts, KV cursor) *)
(* ================================================================== *)

(** An [AuthManager] as far as the rotator looks at it: the [id] it was
    constructed with, and its credentials. *)
Record AuthManager : Type := mkAuthManager {
  id : Z;
  credentials : string
}.

Definition rotation_key : string := "account_rotation_index".

(** [private currentAccountIndex: number = 0], which this class never
    assigns again. *)
Definition currentAccountIndex : number := Fin 0.

(** Lines 85 and 86: [if (isNaN(i) || i < 0) i = 0; i = i % accounts.length] *)
Definition normalize (accounts : list AuthManager) (currentIndex : number) : number :=
  let currentIndex :=
    if JS.isNaN currentIndex || JS.ltb currentIndex (Fin 0) then Fin 0
    else currentIndex in
  JS.rem currentIndex (JS.length_of accounts).

(** [(i + 1) % this.accounts.length] *)
Definition next (accounts : list AuthManager) (currentIndex : number) : number :=
  JS.rem (JS.add currentIndex (Fin 1)) (JS.length_of accounts).

Section MultiAccountManager.
Context {W : Type} `{Host W}.
Variable accounts : list AuthManager.

(** Lines 73 to 88: the cursor read from the KV, normalized. *)
Definition startIndex : M W number :=
  let* kvIndex :=
    try_catch
      (let* kvIndex := call (KV_get rotation_key) in
       match kvIndex with
       | Some kvIndex => ret (JS.parseInt kvIndex)
       | None => ret currentAccountIndex
       end)
      (fun _ => ret currentAccountIndex) in
  ret (normalize accounts kvIndex).

(** The [while (attempts < this.accounts.length)] loop and the return
    after it; [remaining] is [this.accounts.length - attempts]. *)
Fixpoint scan (startIndex : number) (remaining : nat) (currentIndex : number)
  : M W (option AuthManager) :=
  match remaining with
  | O => ret (JS.index accounts startIndex)
  | S remaining' =>
      match JS.index accounts currentIndex with
      | None =>
          (* (account as any).id with account undefined *)
          throw (TypeError "Cannot read properties of undefined (reading 'id')")
      | Some account =>
          let accountId := id account in
          let* healthy := isAccountHealthy accountId in
          if healthy then
            let nextIndex := next accounts currentIndex in
            try_catch (call (KV_put rotation_key (JS.toString nextIndex)))
                      (fun _ => ret tt) ;;
            ret (Some account)
          else scan startIndex remaining' (next accounts currentIndex)
      end
  end.

(** [getAccount()]; [None] is [undefined]. *)
Definition getAccount : M W (option AuthManager) :=
  if Nat.eqb (length accounts) 0
  then throw (Error "No service accounts configured")
  else
    let* currentIndex := startIndex in
    scan currentIndex (length accounts) currentIndex.

Definition reportFailure (account : AuthManager) (statusCode : Z) : M W unit :=
  if (statusCode =? 429) || (statusCode =? 503)
  then recordFailure (id account)
  else ret tt.

Definition getAccountCount : nat := length accounts.
Definition getAccounts : list AuthManager := accounts.
End MultiAccountManager.

(* ================================================================== *)
(** ** A host to run the code on *)
(* ================================================================== *)

(** [Sim]: a store that keeps what was last put under each key, a clock
    that answers with the readings of a script (the last one repeats, [0]
    once the script is empty), and two switches that make every read,
    respectively every write, throw. Entries do not expire. *)
Module Sim.
Record t : Type := mk {
  clock : list Z;
  text : gmap string string;
  json : gmap string AccountHealth;
  reads_fail : bool;
  writes_fail : bool
}.

Definition tick (w : t) : Z * t :=
  match clock w with
  | [] => (0, w)
  | [now] => (now, w)
  | now :: later => (now, mk later (text w) (json w) (reads_fail w) (writes_fail w))
  end.

Definition get (k : string) (w : t) : completion (option string) * t :=
  if reads_fail w then (Throw (HostError "KV GET failed"), w)
  else (Normal (text w !! k), w).

Definition get_json (k : string) (w : t) : completion (option AccountHealth) * t :=
  if reads_fail w then (Throw (HostError "KV GET failed"), w)
  else (Normal (json w !! k), w).

Definition put (k v : string) (w : t) : completion unit * t :=
  if writes_fail w then (Throw (HostError "KV PUT failed"), w)
  else (Normal tt, mk (clock w) (<[k := v]> (text w)) (json w) (reads_fail w) (writes_fail w)).

Definition put_json (k : string) (h : AccountHealth) (ttl : Z) (w : t)
  : completion unit * t :=
  if writes_fail w then (Throw (HostError "KV PUT failed"), w)
  else (Normal tt, mk (clock w) (text w) (<[k := h]> (json w)) (reads_fail w) (writes_fail w)).

#[global] Instance host : Host t :=
  {| Date_now := tick; KV_get := get; KV_get_json := get_json;
     KV_put := put; KV_put_json := put_json |}.

(** A fresh worker instance on world [w]. *)
Definition fresh (w : t) : State t := mkState ∅ w.
End Sim.


(** [Blank]: a store on which nothing is ever visible: reads find no entry
    and writes are accepted and lost. The state is the clock script. *)
Module Blank.
Definition t : Type := list Z.

Definition tick (w : t) : Z * t :=
  match w with
  | [] => (0, w)
  | [now] => (now, w)
  | now :: later => (now, later)
  end.

#[global] Instance host : Host t :=
  {| Date_now := tick;
     KV_get := fun _ w => (Normal None, w);
     KV_get_json := fun _ w => (Normal None, w);
     KV_put := fun _ _ w => (Normal tt, w);
     KV_put_json := fun _ _ _ w => (Normal tt, w) |}.

Definition fresh (w : t) : State t := mkState ∅ w.
End Blank.

(* ================================================================== *)
(** ** Runs of the two classes, to state their properties on *)
(* ================================================================== *)

Section Runs.
Context {W : Type} `{Host W}.

(** The failure count the tracker holds for an account: that of its local
    record, [0] without one (the [?.failureCount || 0] of
    [recordFailure]). *)
Definition failureCount_of (st : State W) (accountId : Z) : Z :=
  match localHealth st !! accountId with
  | Some h => failureCount h
  | None => 0
  end.

(** The local cache as [isAccountHealthy] leaves it once it is past its
    local check (the cooldown of the local record, if there is one, has
    ended): a flag that was set is cleared. *)
Definition after_local_check (accountId : Z) (st : State W) : gmap Z AccountHealth :=
  match localHealth st !! accountId with
  | Some localStatus =>
      if isRateLimited localStatus
      then <[accountId := set_isRateLimited false localStatus]> (localHealth st)
      else localHealth st
  | None => localHealth st
  end.

(** [n] calls of [isAccountHealthy(accountId)] in a row, each with the
    reading of the clock it starts with. *)
Fixpoint health_checks (accountId : Z) (n : nat) (st : State W)
  : list (Z * completion bool) :=
  match n with
  | O => []
  | S n' =>
      let '(r, st') := isAccountHealthy accountId st in
      (fst (Date_now (world st)), r) :: health_checks accountId n' st'
  end.

(** [isAccountHealthy(accountId)], called in [st], gets past its local
    check, reads from the store a record whose cooldown has not ended, and
    makes it the local record. *)
Definition adopts (accountId : Z) (st : State W) : Prop :=
  exists now w1 kvHealth w2,
    Date_now (world st) = (now, w1)
    /\ KV_get_json (health_key accountId) w1 = (Normal (Some kvHealth), w2)
    /\ now < cooldownEnds kvHealth
    /\ isAccountHealthy accountId st
       = (Normal false, mkState (<[accountId := kvHealth]> (localHealth st)) w2
                        : State W).

Variable accounts : list AuthManager.

(** An index of the array. *)
Definition in_range (i : number) : Prop :=
  exists z, i = Fin z /\ 0 <= z < Z.of_nat (length accounts).

(** [skipped k i st]: the scan of [getAccount], at index [i] in state
    [st], finds [k] candidates in a row unhealthy; the result is the index
    and the state it is in after them. [None] when one of the [k] is
    healthy, or is not there. *)
Fixpoint skipped (k : nat) (currentIndex : number) (st : State W)
  : option (number * State W) :=
  match k with
  | O => Some (currentIndex, st)
  | S k' =>
      match JS.index accounts currentIndex with
      | None => None
      | Some account =>
          match isAccountHealthy (id account) st with
          | (Normal false, st') => skipped k' (next accounts currentIndex) st'
          | _ => None
          end
      end
  end.

(** The cursor the store holds before [getAccount()] call number [j]
    (from 0) of a fair rotation: nothing before the first call, the index
    of the next account afterwards. *)
Definition cursor_before (j : nat) (c : option string) : Prop :=
  (c = None /\ j = O)
  \/ c = Some (JS.toString (Fin (Z.of_nat (j mod length accounts)))).

(** The results of [n] consecutive [getAccount()] calls. *)
Fixpoint getAccount_times (n : nat) (st : State W)
  : list (completion (option AuthManager)) :=
  match n with
  | O => []
  | S n' => let '(r, st') := getAccount accounts st in r :: getAccount_times n' st'
  end.

(** The operations of the tracker and of the rotator. *)
Inductive Op : Type :=
  | OpRecordFailure (accountId : Z)
  | OpIsAccountHealthy (accountId : Z)
  | OpRecordSuccess (accountId : Z)
  | OpGetAccount
  | OpReportFailure (account : AuthManager) (statusCode : Z).

Definition perform (op : Op) (st : State W) : State W :=
  match op with
  | OpRecordFailure accountId => snd (recordFailure accountId st)
  | OpIsAccountHealthy accountId => snd (isAccountHealthy accountId st)
  | OpRecordSuccess accountId => snd (recordSuccess accountId st)
  | OpGetAccount => snd (getAccount accounts st)
  | OpReportFailure account statusCode => snd (reportFailure account statusCode st)
  end.

Definition run (ops : list Op) (st : State W) : State W :=
  fold_left (fun st op => perform op st) ops st.

(** What lowers the failure count of [accountId] when [op] is performed
    in [st]: the reset of [recordSuccess], on a record with a count above
    zero and the flag down; or a health check, made by the caller or by
    the scan of [getAccount], that adopts a record of the store. *)
Definition lowers (op : Op) (st : State W) (accountId : Z) : Prop :=
  match op with
  | OpRecordSuccess a =>
      a = accountId
      /\ exists current,
           localHealth st !! accountId = Some current
           /\ 0 < failureCount current
           /\ isRateLimited current = false
           /\ failureCount_of (perform op st) accountId = 0
  | OpIsAccountHealthy a => a = accountId /\ adopts accountId st
  | OpGetAccount =>
      exists i st1 k cur s account,
        startIndex accounts st = (Normal i, st1)
        /\ skipped k i st1 = Some (cur, s)
        /\ JS.index accounts cur = Some account
        /\ id account = accountId
        /\ adopts accountId s
  | OpRecordFailure _ | OpReportFailure _ _ => False
  end.
End Runs.

(* ================================================================== *)
(** ** Scenarios *)
(* ================================================================== *)

Module Scenario.
Definition A0 : AuthManager := mkAuthManager 0 "credentials 0".
Definition A1 : AuthManager := mkAuthManager 1 "credentials 1".
Definition A2 : AuthManager := mkAuthManager 2 "credentials 2".
Definition pool : list AuthManager := [A0; A1; A2].

(** A fresh worker on an empty store that works; the clock stands at 0. *)
Definition quiet : State Sim.t := Sim.fresh (Sim.mk [0] ∅ ∅ false false).

(** In the states of a fair rotation on [Sim] the store works, holds [c]
    under the rotation key and no health record, and the local cache is
    empty. *)
Definition Cursor (st : State Sim.t) (c : option string) : Prop :=
  Sim.text (world st) !! rotation_key = c
  /\ Sim.json (world st) = ∅
  /\ Sim.reads_fail (world st) = false
  /\ Sim.writes_fail (world st) = false
  /\ localHealth st = ∅.

(** A record of a failure at time [t], as [recordFailure] writes it. *)
Definition failed_at (t count : Z) : AccountHealth :=
  {| isRateLimited := true; lastRateLimitTime := t;
     failureCount := count; cooldownEnds := t + DEFAULT_COOLDOWN_MS |}.

(** Every account is cooling down in the store (failures at time 0, the
    clock at 5s), the cursor is at 1. *)
Definition saturated : State Sim.t :=
  Sim.fresh
    (Sim.mk [5000] {[ rotation_key := "1" ]}
       {[ health_key 0 := failed_at 0 1;
          health_key 1 := failed_at 0 1;
          health_key 2 := failed_at 0 1 ]}
       false false).

(** The cursor is at 1, account 1 is cooling down in the store, and every
    write to the store fails. *)
Definition read_only : State Sim.t :=
  Sim.fresh
    (Sim.mk [5000] {[ rotation_key := "1" ]}
       {[ health_key 1 := failed_at 0 1 ]}
       false true).

(** Every read of the store fails. *)
Definition unreachable : State Sim.t :=
  Sim.fresh (Sim.mk [5000] ∅ ∅ true false).

(** The store holds 4 under the rotation key. *)
Definition cursor_at_4 : State Sim.t :=
  Sim.fresh (Sim.mk [0] {[ rotation_key := "4" ]} ∅ false false).

(** A decimal numeral of 310 digits: 1 followed by 309 zeros. *)
Definition numeral_1e309 : string :=
  "1000000000000000000000000000000000000000000000000000000000000000000000000000000000000000000000000000000000000000000000000000000000000000000000000000000000000000000000000000000000000000000000000000000000000000000000000000000000000000000000000000000000000000000000000000000000000000000000000000000000000000000000".

(** The store holds that numeral under the rotation key. *)
Definition cursor_overflows : State Sim.t :=
  Sim.fresh (Sim.mk [0] {[ rotation_key := numeral_1e309 ]} ∅ false false).

(** A worker that recorded two failures of account 1, at 0s and at 1s... *)
Definition after_two_failures : State Sim.t :=
  run pool [OpRecordFailure 1; OpRecordFailure 1]
      (Sim.fresh (Sim.mk [0; 0; 1000; 1000] ∅ ∅ false false)).

(** ... and the same worker at 110s, after another worker recorded its
    first failure of account 1 at 100s and put its record in the store. *)
Definition after_foreign_failure : State Sim.t :=
  mkState (localHealth after_two_failures)
          (Sim.mk [110000] ∅ {[ health_key 1 := failed_at 100000 1 ]} false false).

(** A fresh worker about to record failures at 0s and at 30s. *)
Definition before_two_failures : State Sim.t :=
  Sim.fresh (Sim.mk [0; 0; 30000; 30000] ∅ ∅ false false).

(** A worker on [Blank] about to record a failure at time 0; the clock
    then reads 30s and 61s. *)
Definition before_failure : State Blank.t := Blank.fresh [0; 0; 30000; 61000].
End Scenario.

(* ================================================================== *)
(** ** The constructor of MultiAccountManager *)
(* ================================================================== *)

(** The variables of the worker's [env] that the constructor looks up by
    name: [(this.env as any)[envKey]] is [undefined] without an entry. *)
Abbreviation Env := (gmap string string).

(** [!s] is false exactly for a string that is there and not empty. *)
Definition truthy (s : option string) : bool :=
  match s with
  | Some (String _ _) => true
  | _ => false
  end.

(** [`GCP_SERVICE_ACCOUNT_${index}`] *)
Definition numbered_key (index : Z) : string :=
  String.append "GCP_SERVICE_ACCOUNT_" (JS.toString (Fin index)).

Definition legacy_key : string := "GCP_SERVICE_ACCOUNT".

(** [addAccount(id, credentials)]: [this.accounts.push(new AuthManager(...))] *)
Definition addAccount (id : Z) (credentials : string)
    (accounts : list AuthManager) : list AuthManager :=
  accounts ++ [mkAuthManager id credentials].

Section Constructor.
(** [JSON.parse(text) as OAuth2Credentials]: the credentials as the
    [AuthManager] carries them, [None] when the text does not parse and
    [JSON.parse] throws. *)
Variable JSON_parse : string -> option string.
Variable env : Env.

(** [try { addAccount(id, JSON.parse(text)) } catch (e) { console.error }] *)
Definition try_addAccount (id : Z) (credentialsJson : string)
    (accounts : list AuthManager) : list AuthManager :=
  match JSON_parse credentialsJson with
  | Some credentials => addAccount id credentials accounts
  | None => accounts
  end.

(** The [while (true)] loop of [initializeAccounts], from [index] on with
    [accounts] loaded so far; [None] when [fuel] iterations did not reach
    the [break]. *)
Fixpoint load_numbered (fuel : nat) (index : Z) (accounts : list AuthManager)
  : option (list AuthManager) :=
  match fuel with
  | O => None
  | S fuel' =>
      let credentialsJson := env !! numbered_key index in
      if truthy credentialsJson
      then load_numbered fuel' (index + 1)
             (try_addAccount index (default "" credentialsJson) accounts)
      else Some accounts
  end.

(** The second step: the legacy single account, when nothing was loaded. *)
Definition load_legacy (accounts : list AuthManager) : list AuthManager :=
  if Nat.eqb (length accounts) 0 && truthy (env !! legacy_key)
  then try_addAccount 0 (default "" (env !! legacy_key)) accounts
  else accounts.

(** [initializeAccounts()], as the array it leaves in [this.accounts]. The
    loop gets one iteration more than [env] has variables. *)
Definition initializeAccounts : option (list AuthManager) :=
  load_legacy <$> load_numbered (S (size env)) 0 [].

(** The account that the numbered variable of [index] gives, if its text
    parses. *)
Definition numbered_account (index : Z) : option AuthManager :=
  mkAuthManager index <$> JSON_parse (default "" (env !! numbered_key index)).

(** The accounts that the numbered variables below [gap] give, in the order
    of their indices. *)
Definition numbered_accounts (gap : Z) : list AuthManager :=
  omap numbered_account (seqZ 0 gap).

(** The pool that the legacy variable alone gives. *)
Definition legacy_accounts : list AuthManager :=
  match env !! legacy_key with
  | Some (String c rest as text) =>
      match JSON_parse text with
      | Some credentials => [mkAuthManager 0 credentials]
      | None => []
      end
  | _ => []
  end.
End Constructor.

(* ================================================================== *)
(** ** class MultiAccountManager, the version with a local cursor *)
(* ================================================================== *)

(** The second version in multi-account-manager.ts rotates
    [this.currentAccountIndex] in memory and does not use the KV for it.
    Its methods take the field and return it with their completion. *)
Module LocalCursor.
Section LocalCursor.
Context {W : Type} `{Host W}.
Variable accounts : list AuthManager.

(** [rotateIndex()] *)
Definition rotateIndex (currentAccountIndex : number) : number :=
  JS.rem (JS.add currentAccountIndex (Fin 1)) (JS.length_of accounts).

(** The loop and the return after it. *)
Fixpoint scan (startIndex : number) (remaining : nat)
    (currentAccountIndex : number) (st : State W)
  : completion (option AuthManager) * number * State W :=
  match remaining with
  | O => (Normal (JS.index accounts startIndex), currentAccountIndex, st)
  | S remaining' =>
      match JS.index accounts currentAccountIndex with
      | None =>
          (Throw (TypeError "Cannot read properties of undefined (reading 'id')"),
           currentAccountIndex, st)
      | Some account =>
          match isAccountHealthy (id account) st with
          | (Normal true, st') =>
              (Normal (Some account), rotateIndex currentAccountIndex, st')
          | (Normal false, st') =>
              scan startIndex remaining' (rotateIndex currentAccountIndex) st'
          | (Throw e, st') => (Throw e, currentAccountIndex, st')
          end
      end
  end.

Definition getAccount (currentAccountIndex : number) (st : State W)
  : completion (option AuthManager) * number * State W :=
  if Nat.eqb (length accounts) 0
  then (Throw (Error "No service accounts configured"), currentAccountIndex, st)
  else scan currentAccountIndex (length accounts) currentAccountIndex st.

(** The results of [n] consecutive [getAccount()] calls on one instance. *)
Fixpoint getAccount_times (n : nat) (currentAccountIndex : number) (st : State W)
  : list (completion (option AuthManager)) :=
  match n with
  | O => []
  | S n' =>
      let '(r, i, st') := getAccount currentAccountIndex st in
      r :: getAccount_times n' i st'
  end.
End LocalCursor.
End LocalCursor.

(* ================================================================== *)
(** ** POST /token-test (routes/debug.ts) *)
(* ================================================================== *)

(** What the handler answers: the HTTP status and the two fields of the
    JSON body. *)
Record JsonResponse : Type := mkJsonResponse {
  res_code : Z;
  res_status : string;
  res_message : string
}.

(** [e instanceof Error ? e.message : String(e)] *)
Definition errorMessage (e : exn) : string :=
  match e with
  | Error m | TypeError m | HostError m => m
  end.

Section TokenTest.
Context {W : Type} `{Host W}.
Variable JSON_parse : string -> option string.
(** [authManager.initializeAuth()], of auth.ts. *)
Variable initializeAuth : AuthManager -> M W unit.
Variable env : Env.

(** The handler. [new MultiAccountManager(c.env)] builds the pool and a
    tracker with an empty local cache on each request. *)
Definition tokenTest (w : W) : JsonResponse * W :=
  let handler : M W JsonResponse :=
    try_catch
      (let accounts := default [] (initializeAccounts JSON_parse env) in
       let* authManager := getAccount accounts in
       match authManager with
       | Some authManager =>
           initializeAuth authManager ;;
           ret (mkJsonResponse 200 "ok"
                  (String.append "Token authentication successful for account "
                     (JS.toString (Fin (id authManager)))))
       | None =>
           throw (TypeError
                    "Cannot read properties of undefined (reading 'initializeAuth')")
       end)
      (fun e => ret (mkJsonResponse 500 "error" (errorMessage e))) in
  let '(r, st) := handler (mkState ∅ w) in
  (match r with
   | Normal response => response
   | Throw e => mkJsonResponse 500 "error" (errorMessage e)
   end, world st).
End TokenTest.

(* ================================================================== *)
(** ** A host that records the calls made into it *)
(* ================================================================== *)

(** One call into the host, with what it answered. *)
Inductive Event : Type :=
  | EvNow (now : Z)
  | EvGet (key : string) (r : completion (option string))
  | EvGetJson (key : string) (r : completion (option AccountHealth))
  | EvPut (key value : string) (r : completion unit)
  | EvPutJson (key : string) (value : AccountHealth) (ttl : Z)
              (r : completion unit).

(** [Traced.t W]: a host [W] together with the calls made so far, oldest
    first. Every call is passed on to [W] and appended to the log. *)
Module Traced.
Record t (W : Type) : Type := mk { log : list Event; inner : W }.
Arguments mk {W} log inner.
Arguments log {W} _.
Arguments inner {W} _.

Section Tracing.
Context {W : Type} `{Host W}.

Definition tick (w : t W) : Z * t W :=
  let '(now, w') := Date_now (inner w) in
  (now, mk (log w ++ [EvNow now]) w').

Definition get (k : string) (w : t W) : completion (option string) * t W :=
  let '(r, w') := KV_get k (inner w) in
  (r, mk (log w ++ [EvGet k r]) w').

Definition get_json (k : string) (w : t W)
  : completion (option AccountHealth) * t W :=
  let '(r, w') := KV_get_json k (inner w) in
  (r, mk (log w ++ [EvGetJson k r]) w').

Definition put (k v : string) (w : t W) : completion unit * t W :=
  let '(r, w') := KV_put k v (inner w) in
  (r, mk (log w ++ [EvPut k v r]) w').

Definition put_json (k : string) (h : AccountHealth) (ttl : Z) (w : t W)
  : completion unit * t W :=
  let '(r, w') := KV_put_json k h ttl (inner w) in
  (r, mk (log w ++ [EvPutJson k h ttl r]) w').

#[global] Instance host : Host (t W) :=
  {| Date_now := tick; KV_get := get; KV_get_json := get_json;
     KV_put := put; KV_put_json := put_json |}.
End Tracing.
End Traced.

(** The calls a worker made so far. *)
Definition trace {W : Type} (st : State (Traced.t W)) : list Event :=
  Traced.log (world st).

(** The calls that concern the store, as opposed to the clock. *)
Definition is_store_call (e : Event) : bool :=
  match e with EvNow _ => false | _ => true end.

Definition is_write (e : Event) : bool :=
  match e with EvPut _ _ _ | EvPutJson _ _ _ _ => true | _ => false end.

(** The clock readings among the calls. *)
Definition clock_readings (evs : list Event) : list Z :=
  omap (fun e => match e with EvNow now => Some now | _ => None end) evs.

(* ================================================================== *)
(** ** More runs *)
(* ================================================================== *)

(** The local record of the account, if there is one, has its cooldown
    still ahead at time [now]: the first test of [isAccountHealthy]. *)
Definition cooling_locally {W : Type} (st : State W) (accountId now : Z) : bool :=
  match localHealth st !! accountId with
  | Some localStatus => now <? cooldownEnds localStatus
  | None => false
  end.

(** [n] calls of [recordFailure(accountId)] in a row. *)
Definition recordFailure_times {W : Type} `{Host W}
    (accountId : Z) (n : nat) (st : State W) : State W :=
  Nat.iter n (fun st => snd (recordFailure accountId st)) st.

(** The calls one health check can make: a clock reading and a read of a
    health record. *)
Definition is_health_check (e : Event) : bool :=
  match e with EvNow _ | EvGetJson _ _ => true | _ => false end.


(* ================================================================== *)
(** ** More scenarios *)
(* ================================================================== *)

Module Cases.
Import Scenario.

(** The worker [st], with the calls it makes recorded from now on. *)
Definition traced (st : State Sim.t) : State (Traced.t Sim.t) :=
  mkState (localHealth st) (Traced.mk [] (world st)).

(** A worker that recorded a failure of account 1 at 0s; the clock stands
    at 5s and the store is empty. *)
Definition cooling_1 : State Sim.t :=
  mkState {[ 1 := failed_at 0 1 ]} (Sim.mk [5000] ∅ ∅ false false).

(** A fresh worker, while the store holds the record of a failure of
    account 1 at 0s; the clock reads 5s, then 6s. *)
Definition foreign_cooldown : State Sim.t :=
  Sim.fresh (Sim.mk [5000; 6000] ∅ {[ health_key 1 := failed_at 0 1 ]} false false).

(** A worker whose record of three failures of account 1 has cooled down:
    the last one was at 0s and the clock stands at 61s. *)
Definition cooled_down : State Sim.t :=
  mkState {[ 1 := failed_at 0 3 ]} (Sim.mk [61000] ∅ ∅ false false).

(** A record whose cooldown ends at 60s, about to be persisted at 59.5s. *)
Definition at_59500 : State Sim.t := Sim.fresh (Sim.mk [59500] ∅ ∅ false false).

(** An [env] with the numbered variables 0, 1 and 3, and the legacy one. *)
Definition env_gap : Env :=
  {[ "GCP_SERVICE_ACCOUNT_0" := "credentials 0";
     "GCP_SERVICE_ACCOUNT_1" := "credentials 1";
     "GCP_SERVICE_ACCOUNT_3" := "credentials 3";
     "GCP_SERVICE_ACCOUNT" := "legacy credentials" ]}.

(** An [env] with the legacy variable alone. *)
Definition env_legacy : Env := {[ "GCP_SERVICE_ACCOUNT" := "credentials 0" ]}.

(** An [env] whose legacy variable does not parse. *)
Definition env_broken : Env := {[ "GCP_SERVICE_ACCOUNT" := "{" ]}.

(** A parser that takes every text but ["{"], and keeps it as it is. *)
Definition parse (text : string) : option string :=
  if String.eqb text "{" then None else Some text.

(** An [initializeAuth()] that completes without a call to the host. *)
Definition auth_ok {W : Type} (_ : AuthManager) : M W unit := ret tt.
End Cases.
(* ================================================================== *)
(** ** Facts about numbers and decimal strings *)
(* ================================================================== *)

Module JSFacts.
Import JS.

Lemma round53_small m : 0 <= m < 2 ^ 53 -> round53 m = m.
Proof.
  intros [Hlo Hhi]. unfold round53.
  assert (Hlog : Z.log2 m < 53).
  { destruct (Z.eq_dec m 0) as [-> | Hne]; [reflexivity |].
    apply Z.log2_lt_pow2; lia. }
  destruct (Z.leb_spec (Z.log2 m - 52) 0); [reflexivity | lia].
Qed.

Lemma round53_nonneg m : 0 <= m -> 0 <= round53 m.
Proof.
  intros Hm. unfold round53.
  destruct (Z.leb_spec (Z.log2 m - 52) 0) as [_ | He]; [exact Hm |].
  apply Z.shiftl_nonneg.
  assert (0 <= Z.shiftr m (Z.log2 m - 52)) by (apply Z.shiftr_nonneg; exact Hm).
  destruct (_ || _); lia.
Qed.

Lemma round53_pos m : 0 < m -> 0 < round53 m.
Proof.
  intros Hm. unfold round53.
  destruct (Z.leb_spec (Z.log2 m - 52) 0) as [_ | He]; [exact Hm |].
  set (e := Z.log2 m - 52) in *.
  assert (Hq : 1 <= Z.shiftr m e).
  { rewrite Z.shiftr_div_pow2 by lia.
    assert (2 ^ e <= m).
    { transitivity (2 ^ Z.log2 m).
      - apply Z.pow_le_mono_r; lia.
      - apply Z.log2_spec; exact Hm. }
    assert (0 < 2 ^ e) by (apply Z.pow_pos_nonneg; lia).
    apply Z.div_le_lower_bound; lia. }
  rewrite Z.shiftl_mul_pow2 by lia.
  assert (0 < 2 ^ e) by (apply Z.pow_pos_nonneg; lia).
  destruct (_ || _); nia.
Qed.

(** Integers below [2^53] in magnitude are doubles. *)
Lemma of_Z_exact z : Z.abs z < 2 ^ 53 -> of_Z z = Fin z.
Proof.
  intros Hz. unfold of_Z.
  rewrite round53_small by lia.
  destruct (Z.leb_spec (2 ^ 1024) (Z.abs z)) as [Hbig | _].
  - assert (2 ^ 53 <= 2 ^ 1024) by (apply Z.pow_le_mono_r; lia). lia.
  - f_equal. rewrite Z.mul_comm. apply Z.abs_sgn.
Qed.

(** A non-negative integer converts to a non-negative double or overflows
  to [+Infinity]; a negative one converts to a negative double or to
  [-Infinity]. *)
Lemma of_Z_nonneg z :
0 <= z -> of_Z z = Inf false \/ exists m, of_Z z = Fin m /\ 0 <= m.
Proof.
  intros Hz. unfold of_Z.
  pose proof (round53_nonneg (Z.abs z) (Z.abs_nonneg z)) as Hr.
  destruct (2 ^ 1024 <=? round53 (Z.abs z)).
  - left. f_equal. apply Z.ltb_ge. exact Hz.
  - right. eexists. split; [reflexivity |].
    destruct (Z.eq_dec z 0) as [-> | Hne]; [reflexivity |].
    rewrite Z.sgn_pos by lia. lia.
Qed.

Lemma of_Z_neg z :
z < 0 -> of_Z z = Inf true \/ exists m, of_Z z = Fin m /\ m < 0.
Proof.
  intros Hz. unfold of_Z.
  assert (Hr : 0 < round53 (Z.abs z)) by (apply round53_pos; lia).
  destruct (2 ^ 1024 <=? round53 (Z.abs z)).
  - left. f_equal. apply Z.ltb_lt. exact Hz.
  - right. eexists. split; [reflexivity |].
    rewrite Z.sgn_neg by lia. lia.
Qed.

Lemma digit_cases d :
0 <= d < 10 ->
d = 0 \/ d = 1 \/ d = 2 \/ d = 3 \/ d = 4 \/ d = 5 \/ d = 6 \/ d = 7 \/ d = 8 \/ d = 9.
Proof. lia. Qed.

Ltac each_digit d H :=
destruct (digit_cases d H) as
  [-> | [-> | [-> | [-> | [-> | [-> | [-> | [-> | [-> | ->]]]]]]]]].

Lemma digit_of_digit_char d : 0 <= d < 10 -> digit_of (digit_char d) = Some d.
Proof. intros H. each_digit d H; reflexivity. Qed.

Lemma digit_char_not_space d : 0 <= d < 10 -> is_white_space (digit_char d) = false.
Proof. intros H. each_digit d H; reflexivity. Qed.

(** The digits written by [digits_go] are read back by [leading_digits]:
  reading them shifts the value read so far by their number [k] and adds
  [n]. *)
Lemma leading_digits_digits_go fuel :
forall n rest,
  (1 <= fuel)%nat -> 0 <= n < 2 ^ Z.of_nat fuel ->
  exists k, 0 <= k /\ forall acc,
    leading_digits (digits_go fuel n rest) acc
    = leading_digits rest (Some (default 0 acc * 10 ^ k + n)).
Proof.
  induction fuel as [| fuel IH]; intros n rest Hfuel Hn; [lia |].
  assert (Hd : 0 <= n mod 10 < 10) by (apply Z.mod_pos_bound; lia).
  cbn [digits_go]. destruct (Z.ltb_spec n 10) as [Hsmall | Hbig].
  - exists 1. split; [lia |]. intros acc. cbn [leading_digits].
    rewrite digit_of_digit_char by exact Hd.
    rewrite Z.mod_small by lia. reflexivity.
  - assert (Hq : 1 <= n / 10) by (apply Z.div_le_lower_bound; lia).
    assert (Hq2 : n / 10 < 2 ^ Z.of_nat fuel).
    { apply Z.div_lt_upper_bound; [lia |].
      rewrite Nat2Z.inj_succ, Z.pow_succ_r in Hn by lia. lia. }
    assert (Hfuel' : (1 <= fuel)%nat).
    { destruct fuel; [| lia]. simpl in Hq2. lia. }
    destruct (IH (n / 10) (String (digit_char (n mod 10)) rest) Hfuel'
                 (conj (Z.le_trans _ _ _ Z.le_0_1 Hq) Hq2)) as (k & Hk & Hread).
    exists (k + 1). split; [lia |]. intros acc.
    rewrite Hread. cbn [leading_digits].
    rewrite digit_of_digit_char by exact Hd. cbn [default].
    do 2 f_equal. rewrite Z.pow_add_r, Z.pow_1_r by lia.
    assert (Hdm : n = 10 * (n / 10) + n mod 10) by (apply Z.div_mod; lia).
    set (q := n / 10) in *. set (r := n mod 10) in *. clearbody q r.
    rewrite Hdm. unfold Datatypes.id. ring.
Qed.

(** [digits_go] starts with a digit. *)
Lemma digits_go_head fuel :
forall n rest,
  (1 <= fuel)%nat -> 0 <= n ->
  exists d tail, 0 <= d < 10 /\ digits_go fuel n rest = String (digit_char d) tail.
Proof.
  induction fuel as [| fuel IH]; intros n rest Hfuel Hn; [lia |].
  cbn [digits_go]. destruct (Z.ltb_spec n 10) as [Hsmall | Hbig].
  - exists (n mod 10), rest. split; [apply Z.mod_pos_bound; lia | reflexivity].
  - destruct fuel as [| fuel'].
    + cbn [digits_go]. exists (n mod 10), rest.
      split; [apply Z.mod_pos_bound; lia | reflexivity].
    + apply IH; [lia |]. apply Z.div_pos; lia.
Qed.

Lemma decimal_fuel n : 0 <= n -> 0 <= n < 2 ^ Z.of_nat (S (Z.to_nat (Z.log2 n))).
Proof.
  intros Hn. split; [exact Hn |].
  rewrite Nat2Z.inj_succ, Z2Nat.id by apply Z.log2_nonneg.
  destruct (Z.eq_dec n 0) as [-> | Hne]; [reflexivity |].
  apply Z.log2_spec. lia.
Qed.

(** [parseInt] reads a plain decimal numeral as the double nearest to the
    integer it denotes. *)
Lemma parseInt_decimal n : 0 <= n -> parseInt (decimal n) = of_Z n.
Proof.
  intros Hlo. unfold parseInt, decimal.
  set (fuel := S (Z.to_nat (Z.log2 n))).
  assert (Hfuel : (1 <= fuel)%nat) by (unfold fuel; lia).
  destruct (digits_go_head fuel n "" Hfuel Hlo) as (d & tail & Hd & Hhead).
  destruct (leading_digits_digits_go fuel n "" Hfuel (decimal_fuel n Hlo))
    as (k & Hk & Hread).
  assert (Htrim : trim_start (digits_go fuel n "") = digits_go fuel n "").
  { rewrite Hhead. cbn [trim_start]. rewrite digit_char_not_space by exact Hd.
    reflexivity. }
  rewrite Htrim.
  assert (Hsign :
    match digits_go fuel n "" with
    | String "-" rest => (-1, rest)
    | String "+" rest => (1, rest)
    | _ => (1, digits_go fuel n "")
    end = (1, digits_go fuel n "")).
  { rewrite Hhead. each_digit d Hd; reflexivity. }
  rewrite Hsign, Hread. cbn [leading_digits default].
  rewrite Z.mul_0_l, Z.add_0_l, Z.mul_1_l. reflexivity.
Qed.

Lemma parseInt_minus_decimal n :
  0 <= n -> parseInt (String "-" (decimal n)) = of_Z (- n).
Proof.
  intros Hlo. unfold parseInt. cbn [trim_start].
  change (is_white_space "-") with false. cbv iota.
  unfold decimal.
  set (fuel := S (Z.to_nat (Z.log2 n))).
  assert (Hfuel : (1 <= fuel)%nat) by (unfold fuel; lia).
  destruct (leading_digits_digits_go fuel n "" Hfuel (decimal_fuel n Hlo))
    as (k & Hk & Hread).
  rewrite Hread. cbn [leading_digits default].
  rewrite Z.mul_0_l, Z.add_0_l. f_equal; lia.
Qed.

(** [parseInt] reads what [toString] writes for an integer. *)
Lemma parseInt_toString_of_Z z : parseInt (toString (Fin z)) = of_Z z.
Proof.
  unfold toString. destruct (Z.ltb_spec z 0) as [Hneg | Hpos].
  - rewrite parseInt_minus_decimal by lia. f_equal. lia.
  - apply parseInt_decimal. exact Hpos.
Qed.

(** What [toString] writes for an index, [parseInt] reads back. *)
Lemma parseInt_toString n :
  0 <= n < 2 ^ 53 -> parseInt (toString (Fin n)) = Fin n.
Proof.
  intros Hn. rewrite parseInt_toString_of_Z. apply of_Z_exact. lia.
Qed.

End JSFacts.

(* ================================================================== *)
(** ** The health tracker *)
(* ================================================================== *)

Ltac unfold_monad :=
  unfold bind, ret, throw, try_catch, call, now_, localHealth_get, localHealth_set.

Section TrackerFacts.
Context {W : Type} `{Host W}.
Implicit Types (st : State W) (accountId : Z).

Lemma or_zero_id x : or_zero x = x.
Proof. unfold or_zero. destruct (Z.eqb_spec x 0); congruence. Qed.

(** The local record after [recordFailure]. *)
Lemma recordFailure_local accountId st :
  localHealth (snd (recordFailure accountId st))
  = <[accountId :=
        {| isRateLimited := true;
           lastRateLimitTime := fst (Date_now (world st));
           failureCount := failureCount_of st accountId + 1;
           cooldownEnds := fst (Date_now (world st)) + DEFAULT_COOLDOWN_MS |}]>
      (localHealth st).
Proof.
  unfold recordFailure, persistHealthToKV, failureCount_of. unfold_monad.
  destruct (Date_now (world st)) as [now w1]. cbn.
  rewrite or_zero_id.
  destruct (Date_now w1) as [now' w2]. cbn.
  destruct (0 <? _); cbn; [| reflexivity].
  destruct (KV_put_json _ _ _ w2) as [[[] | e] w3]; reflexivity.
Qed.

(** [recordFailure] never throws. *)
Lemma recordFailure_returns accountId st :
  fst (recordFailure accountId st) = Normal tt.
Proof.
  unfold recordFailure, persistHealthToKV. unfold_monad.
  destruct (Date_now (world st)) as [now w1]. cbn.
  destruct (Date_now w1) as [now' w2]. cbn.
  destruct (0 <? _); cbn; [| reflexivity].
  destruct (KV_put_json _ _ _ w2) as [[[] | e] w3]; reflexivity.
Qed.

(** [checkKV], by what the read returns. *)
Lemma checkKV_cases accountId now st :
  checkKV accountId now st
  = match KV_get_json (health_key accountId) (world st) with
    | (Normal (Some kvHealth), w) =>
        if now <? cooldownEnds kvHealth
        then (Normal false, mkState (<[accountId := kvHealth]> (localHealth st)) w)
        else (Normal true, mkState (localHealth st) w)
    | (Normal None, w) => (Normal true, mkState (localHealth st) w)
    | (Throw _, w) => (Normal true, mkState (localHealth st) w)
    end.
Proof.
  unfold checkKV. unfold_monad.
  destruct (KV_get_json _ (world st)) as [[[kvHealth |] | e] w]; cbn;
    try reflexivity.
  destruct (now <? cooldownEnds kvHealth); reflexivity.
Qed.

(** [isAccountHealthy], by the local record. *)
Lemma isAccountHealthy_cases accountId st now w :
  Date_now (world st) = (now, w) ->
  isAccountHealthy accountId st
  = match localHealth st !! accountId with
    | Some localStatus =>
        if now <? cooldownEnds localStatus
        then (Normal false, mkState (localHealth st) w)
        else checkKV accountId now (mkState (after_local_check accountId st) w)
    | None => checkKV accountId now (mkState (localHealth st) w)
    end.
Proof.
  intros Hnow. unfold isAccountHealthy, after_local_check. unfold_monad.
  rewrite Hnow. cbn.
  destruct (localHealth st !! accountId) as [localStatus |]; [| reflexivity].
  destruct (now <? cooldownEnds localStatus); [reflexivity |].
  destruct (isRateLimited localStatus); reflexivity.
Qed.

(** [isAccountHealthy] never throws. *)
Lemma isAccountHealthy_returns accountId st :
  exists b st', isAccountHealthy accountId st = (Normal b, st').
Proof.
  destruct (Date_now (world st)) as [now w] eqn:Hnow.
  rewrite (isAccountHealthy_cases _ _ _ _ Hnow).
  destruct (localHealth st !! accountId) as [localStatus |].
  - destruct (now <? cooldownEnds localStatus); [eauto |].
    rewrite checkKV_cases. cbn.
    destruct (KV_get_json _ w) as [[[kvHealth |] | e] w']; eauto.
    destruct (now <? cooldownEnds kvHealth); eauto.
  - rewrite checkKV_cases. cbn.
    destruct (KV_get_json _ w) as [[[kvHealth |] | e] w']; eauto.
    destruct (now <? cooldownEnds kvHealth); eauto.
Qed.

Lemma after_local_check_lookup accountId st localStatus :
  localHealth st !! accountId = Some localStatus ->
  after_local_check accountId st !! accountId
  = Some (set_isRateLimited false localStatus).
Proof.
  intros Hl. unfold after_local_check. rewrite Hl.
  destruct (isRateLimited localStatus) eqn:Hflag.
  - apply lookup_insert_eq.
  - rewrite Hl. f_equal. destruct localStatus as [b t c e].
    cbn in Hflag. subst b. reflexivity.
Qed.

Lemma after_local_check_ne accountId other st :
  accountId <> other ->
  after_local_check accountId st !! other = localHealth st !! other.
Proof.
  intros Hne. unfold after_local_check.
  destruct (localHealth st !! accountId) as [localStatus |]; [| reflexivity].
  destruct (isRateLimited localStatus); [| reflexivity].
  apply lookup_insert_ne. exact Hne.
Qed.

Lemma after_local_check_None accountId st :
  localHealth st !! accountId = None ->
  after_local_check accountId st = localHealth st.
Proof. intros Hl. unfold after_local_check. rewrite Hl. reflexivity. Qed.

(** **** C4 *)

(** C4. [recordFailure(id)] called at time [now] makes the local record of
    [id] rate limited, with [lastRateLimitTime = now], the previous failure
    count plus one ([0] plus one without a previous record) and
    [cooldownEnds = now + 60s]. Two calls in a row, from no record, leave
    [failureCount = 2] and a [cooldownEnds] counted from the time of the
    second call. *)
Theorem recordFailure_record accountId st :
  let now := fst (Date_now (world st)) in
  let st1 := snd (recordFailure accountId st) in
  localHealth st1 !! accountId
  = Some {| isRateLimited := true;
            lastRateLimitTime := now;
            failureCount := failureCount_of st accountId + 1;
            cooldownEnds := now + 60 * 1000 |}
  /\ (localHealth st !! accountId = None ->
      let now2 := fst (Date_now (world st1)) in
      localHealth (snd (recordFailure accountId st1)) !! accountId
      = Some {| isRateLimited := true;
                lastRateLimitTime := now2;
                failureCount := 2;
                cooldownEnds := now2 + 60 * 1000 |}).
Proof.
  cbn zeta. split.
  - rewrite recordFailure_local. apply lookup_insert_eq.
  - intros Hnone. rewrite recordFailure_local, lookup_insert_eq.
    do 2 f_equal. unfold failureCount_of.
    rewrite recordFailure_local, lookup_insert_eq. cbn.
    unfold failureCount_of. rewrite Hnone. reflexivity.
Qed.

(** **** C5 *)

(** C5. When [isAccountHealthy(id)] reaches its read of the shared store
    (the local record, if any, has its cooldown behind it) and that read
    throws, the call returns [true] and throws nothing. *)
Theorem isAccountHealthy_fails_open accountId st now w e w' :
  Date_now (world st) = (now, w) ->
  match localHealth st !! accountId with
  | Some localStatus => cooldownEnds localStatus <= now
  | None => True
  end ->
  KV_get_json (health_key accountId) w = (Throw e, w') ->
  isAccountHealthy accountId st
  = (Normal true, mkState (after_local_check accountId st) w').
Proof.
  intros Hnow Hlocal Hread.
  rewrite (isAccountHealthy_cases _ _ _ _ Hnow).
  destruct (localHealth st !! accountId) as [localStatus |] eqn:Hl.
  - destruct (Z.ltb_spec now (cooldownEnds localStatus)); [lia |].
    rewrite checkKV_cases. cbn. rewrite Hread. reflexivity.
  - rewrite checkKV_cases. cbn. rewrite Hread.
    unfold after_local_check. rewrite Hl. reflexivity.
Qed.

(** **** C3 *)

(** One health check of an account whose local record ends its cooldown
    at [T], on a store that serves no record outlasting [T]: the answer
    is [false] strictly before [T] and [true] from [T] on, and the local
    record still ends its cooldown at [T]. *)
Lemma isAccountHealthy_window accountId T st h :
  (forall w r w', KV_get_json (health_key accountId) w = (r, w') ->
     match r with
     | Normal (Some kvHealth) => cooldownEnds kvHealth <= T
     | _ => True
     end) ->
  localHealth st !! accountId = Some h -> cooldownEnds h = T ->
  exists st' h',
    isAccountHealthy accountId st
    = (Normal (negb (fst (Date_now (world st)) <? T)), st')
    /\ localHealth st' !! accountId = Some h' /\ cooldownEnds h' = T.
Proof.
  intros Hstore Hl HT.
  destruct (Date_now (world st)) as [now w] eqn:Hnow.
  rewrite (isAccountHealthy_cases _ _ _ _ Hnow), Hl, HT. cbn [fst].
  destruct (Z.ltb_spec now T) as [Hbefore | Hafter].
  - exists (mkState (localHealth st) w), h. auto.
  - rewrite checkKV_cases. cbn [world localHealth].
    pose proof (after_local_check_lookup _ _ _ Hl) as Hl'.
    destruct (KV_get_json (health_key accountId) w) as [r w'] eqn:Hread.
    specialize (Hstore _ _ _ Hread).
    destruct r as [[kvHealth |] | e].
    + destruct (Z.ltb_spec now (cooldownEnds kvHealth)); [lia |].
      eexists _, _. split; [reflexivity |]. split; [exact Hl' | exact HT].
    + eexists _, _. split; [reflexivity |]. split; [exact Hl' | exact HT].
    + eexists _, _. split; [reflexivity |]. split; [exact Hl' | exact HT].
Qed.

(** C3. After [recordFailure(id)] at time [t], on a store that serves no
    record for [id] outlasting this failure's cooldown (in particular: no
    record at all), every [isAccountHealthy(id)] call made strictly
    before [t + 60s] returns [false] and every call made at [t + 60s] or
    later returns [true]. *)
Theorem cooldown_window accountId st0 n :
  let t := fst (Date_now (world st0)) in
  (forall w r w', KV_get_json (health_key accountId) w = (r, w') ->
     match r with
     | Normal (Some kvHealth) => cooldownEnds kvHealth <= t + 60 * 1000
     | _ => True
     end) ->
  Forall (fun check => snd check = Normal (negb (fst check <? t + 60 * 1000)))
         (health_checks accountId n (snd (recordFailure accountId st0))).
Proof.
  cbn zeta. intros Hstore.
  assert (Hrec : exists h,
    localHealth (snd (recordFailure accountId st0)) !! accountId = Some h
    /\ cooldownEnds h = fst (Date_now (world st0)) + 60 * 1000).
  { rewrite recordFailure_local, lookup_insert_eq. eauto. }
  generalize dependent (snd (recordFailure accountId st0)).
  induction n as [| n IH]; intros st (h & Hl & HT); cbn [health_checks].
  - constructor.
  - destruct (isAccountHealthy_window _ _ _ _ Hstore Hl HT)
      as (st' & h' & Hcall & Hl' & HT').
    rewrite Hcall. constructor; [reflexivity |].
    apply IH. eauto.
Qed.

(** **** Failure counts, one tracker call at a time *)

Lemma failureCount_recordFailure accountId other st :
  failureCount_of st other
  <= failureCount_of (snd (recordFailure accountId st)) other.
Proof.
  unfold failureCount_of at 2. rewrite recordFailure_local.
  destruct (decide (accountId = other)) as [<- | Hne].
  - rewrite lookup_insert_eq. cbn. lia.
  - rewrite lookup_insert_ne by exact Hne. reflexivity.
Qed.

Lemma failureCount_recordSuccess accountId other st :
  failureCount_of (snd (recordSuccess accountId st)) other
  < failureCount_of st other ->
  accountId = other
  /\ exists current,
       localHealth st !! other = Some current
       /\ 0 < failureCount current /\ isRateLimited current = false
       /\ failureCount_of (snd (recordSuccess accountId st)) other = 0.
Proof.
  unfold recordSuccess. unfold_monad.
  destruct (localHealth st !! accountId) as [current |] eqn:Hl; cbn; [| lia].
  destruct (Z.ltb_spec 0 (failureCount current)) as [Hpos | Hzero];
    [| cbn; lia].
  destruct (isRateLimited current) eqn:Hflag; cbn; [lia |].
  unfold failureCount_of. cbn.
  destruct (decide (accountId = other)) as [<- | Hne].
  - rewrite lookup_insert_eq, Hl. cbn. intros _. split; [reflexivity |].
    exists current. auto.
  - rewrite lookup_insert_ne by exact Hne. lia.
Qed.

Lemma insert_after_local_check accountId st h :
  <[accountId := h]> (after_local_check accountId st)
  = <[accountId := h]> (localHealth st).
Proof.
  unfold after_local_check.
  destruct (localHealth st !! accountId) as [localStatus |]; [| reflexivity].
  destruct (isRateLimited localStatus); [| reflexivity].
  apply insert_insert_eq.
Qed.

Lemma failureCount_after_local_check accountId other st (w : W) :
  failureCount_of (mkState (after_local_check accountId st) w) other
  = failureCount_of st other.
Proof.
  unfold failureCount_of. cbn.
  destruct (decide (accountId = other)) as [<- | Hne].
  - destruct (localHealth st !! accountId) as [localStatus |] eqn:Hl.
    + rewrite (after_local_check_lookup _ _ _ Hl). reflexivity.
    + rewrite after_local_check_None, Hl by exact Hl. reflexivity.
  - rewrite after_local_check_ne by exact Hne. reflexivity.
Qed.

Lemma failureCount_checkKV accountId other now st :
  failureCount_of (snd (checkKV accountId now st)) other
  < failureCount_of st other ->
  accountId = other
  /\ exists kvHealth w,
       KV_get_json (health_key accountId) (world st) = (Normal (Some kvHealth), w)
       /\ now < cooldownEnds kvHealth
       /\ checkKV accountId now st
          = (Normal false, mkState (<[accountId := kvHealth]> (localHealth st)) w).
Proof.
  rewrite checkKV_cases.
  destruct (KV_get_json (health_key accountId) (world st))
    as [[[kvHealth |] | e] w] eqn:Hread;
    try (unfold failureCount_of; cbn; lia).
  destruct (Z.ltb_spec now (cooldownEnds kvHealth)) as [Hactive | _];
    [| unfold failureCount_of; cbn; lia].
  destruct (decide (accountId = other)) as [<- | Hne].
  - intros _. split; [reflexivity |]. exists kvHealth, w. auto.
  - unfold failureCount_of. cbn. rewrite lookup_insert_ne by exact Hne. lia.
Qed.

Lemma failureCount_isAccountHealthy accountId other st :
  failureCount_of (snd (isAccountHealthy accountId st)) other
  < failureCount_of st other ->
  accountId = other /\ adopts other st.
Proof.
  destruct (Date_now (world st)) as [now w] eqn:Hnow.
  pose proof (isAccountHealthy_cases accountId st now w Hnow) as Hcases.
  destruct (localHealth st !! accountId) as [localStatus |] eqn:Hl.
  - destruct (Z.ltb_spec now (cooldownEnds localStatus)) as [Hcool | Hover].
    { rewrite Hcases. unfold failureCount_of. cbn. lia. }
    rewrite Hcases. intros Hlt.
    rewrite <- (failureCount_after_local_check accountId other st w) in Hlt.
    destruct (failureCount_checkKV _ _ _ _ Hlt)
      as [<- (kv & w' & Hread & Hact & Hrun)].
    split; [reflexivity |]. exists now, w, kv, w'.
    repeat split; try assumption.
    rewrite Hcases, Hrun. cbn [localHealth].
    rewrite insert_after_local_check. reflexivity.
  - rewrite Hcases. intros Hlt.
    change (failureCount_of st other)
      with (failureCount_of (mkState (localHealth st) w) other) in Hlt.
    destruct (failureCount_checkKV _ _ _ _ Hlt)
      as [<- (kv & w' & Hread & Hact & Hrun)].
    split; [reflexivity |]. exists now, w, kv, w'.
    repeat split; try assumption.
    rewrite Hcases. exact Hrun.
Qed.
End TrackerFacts.

(* ================================================================== *)
(** ** The rotator *)
(* ================================================================== *)

Section ManagerFacts.
Context {W : Type} `{Host W}.
Variable accounts : list AuthManager.
Implicit Types (st : State W) (i cur : number).

Local Abbreviation N := (Z.of_nat (length accounts)).

Lemma nonempty_length_nat : accounts <> [] -> length accounts <> O.
Proof. intros Hne Hlen. apply Hne, nil_length_inv, Hlen. Qed.

Lemma nonempty_length : accounts <> [] -> 0 < N.
Proof. intros Hne. apply nonempty_length_nat in Hne. lia. Qed.

Lemma normalize_Fin z :
  accounts <> [] ->
  normalize accounts (Fin z) = Fin (if z <? 0 then 0 else z mod N).
Proof.
  intros Hne. pose proof (nonempty_length Hne) as HN.
  unfold normalize, JS.length_of. cbn.
  destruct (Z.ltb_spec z 0) as [Hneg | Hpos]; cbn;
    destruct (Z.eqb_spec N 0) as [| _]; try lia; f_equal.
  - apply Z.rem_mod_nonneg; lia.
Qed.

Lemma normalize_zero x :
  accounts <> [] ->
  x = NaN \/ x = Inf true \/ (exists z, x = Fin z /\ z <= 0) ->
  normalize accounts x = Fin 0.
Proof.
  intros Hne Hx. pose proof (nonempty_length Hne) as HN.
  destruct Hx as [-> | [-> | (z & -> & Hz)]].
  - unfold normalize, JS.length_of. cbn.
    destruct (Z.eqb_spec N 0); [lia | reflexivity].
  - unfold normalize, JS.length_of. cbn.
    destruct (Z.eqb_spec N 0); [lia | reflexivity].
  - rewrite normalize_Fin by exact Hne.
    destruct (Z.ltb_spec z 0); [reflexivity |].
    replace z with 0 by lia. reflexivity.
Qed.

Lemma normalize_in_range x z :
  accounts <> [] -> normalize accounts x = Fin z -> 0 <= z < N.
Proof.
  intros Hne. pose proof (nonempty_length Hne) as HN.
  destruct x as [| [] | a].
  - rewrite normalize_zero by auto. intros [= <-]. lia.
  - rewrite normalize_zero by auto. intros [= <-]. lia.
  - unfold normalize. cbn. discriminate.
  - rewrite normalize_Fin by exact Hne. intros [= <-].
    destruct (a <? 0); [lia |]. apply Z.mod_pos_bound. lia.
Qed.

Lemma index_in_range i :
  in_range accounts i -> exists account, JS.index accounts i = Some account /\ account ∈ accounts.
Proof.
  intros (z & -> & Hz). unfold JS.index.
  destruct (Z.leb_spec 0 z); [| lia].
  destruct (lookup_lt_is_Some_2 accounts (Z.to_nat z)) as [account Ha]; [lia |].
  exists account. split; [exact Ha |].
  apply list_elem_of_lookup. eauto.
Qed.

Lemma index_Some_in_range i account :
  JS.index accounts i = Some account -> in_range accounts i.
Proof.
  destruct i as [| s | z]; cbn; try discriminate.
  destruct (Z.leb_spec 0 z); [| discriminate].
  intros Ha. apply lookup_lt_Some in Ha. exists z. split; [reflexivity | lia].
Qed.

Lemma next_Fin z :
  0 <= z < N -> next accounts (Fin z) = Fin ((z + 1) mod N).
Proof.
  intros Hz. unfold next, JS.length_of. cbn.
  destruct (Z.eqb_spec N 0); [lia |]. f_equal.
  apply Z.rem_mod_nonneg; lia.
Qed.

Lemma next_in_range i : in_range accounts i -> in_range accounts (next accounts i).
Proof.
  intros (z & -> & Hz). rewrite next_Fin by exact Hz.
  eexists. split; [reflexivity |]. apply Z.mod_pos_bound. lia.
Qed.

(** What [startIndex] computes, by the outcome of the cursor read. *)
Lemma startIndex_cases st :
  startIndex accounts st
  = (Normal (normalize accounts
               match fst (KV_get rotation_key (world st)) with
               | Normal (Some kvIndex) => JS.parseInt kvIndex
               | _ => currentAccountIndex
               end),
     mkState (localHealth st) (snd (KV_get rotation_key (world st)))).
Proof.
  unfold startIndex. unfold_monad.
  destruct (KV_get rotation_key (world st)) as [[[kvIndex |] | e] w];
    reflexivity.
Qed.

(** One iteration of the loop on a healthy candidate: the cursor write is
    attempted, its outcome is dropped, the candidate is returned. *)
Lemma scan_selects start remaining cur st account st1 :
  JS.index accounts cur = Some account ->
  isAccountHealthy (id account) st = (Normal true, st1) ->
  scan accounts start (S remaining) cur st
  = (Normal (Some account),
     mkState (localHealth st1)
       (snd (KV_put rotation_key (JS.toString (next accounts cur)) (world st1)))).
Proof.
  intros Hidx Hhealthy. cbn [scan]. rewrite Hidx. unfold_monad.
  rewrite Hhealthy.
  destruct (KV_put rotation_key _ (world st1)) as [[[] | e] w]; reflexivity.
Qed.

(** [k] unhealthy candidates in a row use up [k] iterations. *)
Lemma scan_skipped start k :
  forall remaining cur st cur' st',
    skipped accounts k cur st = Some (cur', st') ->
    scan accounts start (k + remaining) cur st
    = scan accounts start remaining cur' st'.
Proof.
  induction k as [| k IH]; intros remaining cur st cur' st' Hskip.
  - cbn in Hskip. injection Hskip as <- <-. reflexivity.
  - cbn [skipped] in Hskip. cbn [Nat.add scan].
    destruct (JS.index accounts cur) as [account |]; [| discriminate].
    unfold_monad.
    destruct (isAccountHealthy (id account) st) as [[[] | e] st1];
      try discriminate.
    apply IH. exact Hskip.
Qed.

Lemma skipped_in_range k :
  forall cur st cur' st',
    in_range accounts cur -> skipped accounts k cur st = Some (cur', st') -> in_range accounts cur'.
Proof.
  induction k as [| k IH]; intros cur st cur' st' Hcur Hskip.
  - cbn in Hskip. injection Hskip as <- <-. exact Hcur.
  - cbn [skipped] in Hskip.
    destruct (JS.index accounts cur) as [account |]; [| discriminate].
    destruct (isAccountHealthy (id account) st) as [[[] | e] st1];
      try discriminate.
    eapply IH; [| exact Hskip]. apply next_in_range. exact Hcur.
Qed.

(** From indices of the array, the scan returns an account of the pool:
    it neither throws nor returns [undefined]. *)
Lemma scan_in_bounds start remaining :
  forall cur st,
    in_range accounts start -> in_range accounts cur ->
    exists account st',
      scan accounts start remaining cur st = (Normal (Some account), st')
      /\ account ∈ accounts.
Proof.
  induction remaining as [| remaining IH]; intros cur st Hstart Hcur.
  - destruct (index_in_range _ Hstart) as (account & Ha & Hin).
    exists account, st. cbn. unfold ret. rewrite Ha. auto.
  - destruct (index_in_range _ Hcur) as (account & Ha & Hin).
    destruct (isAccountHealthy_returns (id account) st) as ([] & st1 & Hcall).
    + rewrite (scan_selects _ _ _ _ _ _ Ha Hcall). eauto.
    + cbn [scan]. rewrite Ha. unfold_monad. rewrite Hcall.
      apply IH; [exact Hstart | apply next_in_range; exact Hcur].
Qed.

(** **** C2 *)

(** C2. For a non-empty pool, when each of the N candidates of the scan is
    reported unhealthy, [getAccount()] returns, without throwing, the
    account at the index the scan started from: the normalized cursor. *)
Theorem all_unhealthy_returns_start st i st1 cur st2 :
  accounts <> [] ->
  startIndex accounts st = (Normal i, st1) ->
  skipped accounts (length accounts) i st1 = Some (cur, st2) ->
  exists account,
    JS.index accounts i = Some account
    /\ getAccount accounts st = (Normal (Some account), st2).
Proof.
  intros Hne Hstart Hskip.
  assert (Hidx : exists account, JS.index accounts i = Some account).
  { pose proof (nonempty_length_nat Hne) as Hlen.
    destruct (length accounts) as [| r]; [congruence |].
    cbn [skipped] in Hskip.
    destruct (JS.index accounts i) as [account |]; [eauto | discriminate]. }
  destruct Hidx as [account Hidx]. exists account. split; [exact Hidx |].
  unfold getAccount.
  destruct (Nat.eqb_spec (length accounts) 0) as [Hlen | _].
  { apply nonempty_length_nat in Hne. congruence. }
  unfold bind. rewrite Hstart.
  rewrite <- (Nat.add_0_r (length accounts)) at 1.
  rewrite (scan_skipped _ _ _ _ _ _ _ Hskip).
  cbn. unfold ret. rewrite Hidx. reflexivity.
Qed.

(** **** C10 *)

(** C10. For a non-empty pool, when the scan, after [k < N] unhealthy
    candidates, finds the account at index [cur] healthy and the write of
    the advanced cursor [(cur + 1) % N] throws, [getAccount()] still
    returns that account and throws nothing. *)
Theorem cursor_write_failure_swallowed st i st1 k cur st2 account st3 e w :
  accounts <> [] ->
  startIndex accounts st = (Normal i, st1) ->
  (k < length accounts)%nat ->
  skipped accounts k i st1 = Some (cur, st2) ->
  JS.index accounts cur = Some account ->
  isAccountHealthy (id account) st2 = (Normal true, st3) ->
  KV_put rotation_key (JS.toString (next accounts cur)) (world st3) = (Throw e, w) ->
  getAccount accounts st = (Normal (Some account), mkState (localHealth st3) w).
Proof.
  intros Hne Hstart Hk Hskip Hidx Hhealthy Hput.
  unfold getAccount.
  destruct (Nat.eqb_spec (length accounts) 0) as [Hlen | _]; [lia |].
  unfold bind. rewrite Hstart.
  replace (length accounts) with (k + S (length accounts - S k))%nat by lia.
  rewrite (scan_skipped _ _ _ _ _ _ _ Hskip).
  rewrite (scan_selects _ _ _ _ _ _ Hidx Hhealthy), Hput. reflexivity.
Qed.

(** **** C8 *)

(** The start index for a cursor written in decimal: 0 for a negative
    integer, the integer modulo N otherwise. *)
Lemma startIndex_of_numeral st z w :
  accounts <> [] -> Z.abs z < 2 ^ 53 ->
  KV_get rotation_key (world st) = (Normal (Some (JS.toString (Fin z))), w) ->
  fst (startIndex accounts st) = Normal (Fin (if z <? 0 then 0 else z mod N)).
Proof.
  intros Hne Hz Hread. rewrite startIndex_cases, Hread. cbn [fst].
  rewrite JSFacts.parseInt_toString_of_Z, JSFacts.of_Z_exact by exact Hz.
  rewrite normalize_Fin by exact Hne. reflexivity.
Qed.

(** An empty pool makes [getAccount()] throw at once. *)
Lemma getAccount_empty_pool_throws st :
  accounts = [] ->
  getAccount accounts st = (Throw (Error "No service accounts configured"), st).
Proof. intros Hnil. unfold getAccount. rewrite Hnil. reflexivity. Qed.

(** [getAccount()] throws exactly when the pool is empty or the start
    index is [NaN]. *)
Lemma getAccount_throws_iff st :
  (exists e st', getAccount accounts st = (Throw e, st'))
  <-> accounts = [] \/ fst (startIndex accounts st) = Normal NaN.
Proof.
  unfold getAccount. rewrite startIndex_cases. cbn [fst].
  destruct (Nat.eqb_spec (length accounts) 0) as [Hlen | Hlen].
  - apply nil_length_inv in Hlen. split; [auto |]. intros _.
    unfold throw. eauto.
  - assert (Hne : accounts <> []) by (intros ->; apply Hlen; reflexivity).
    unfold bind. rewrite startIndex_cases.
    set (i := normalize _ _). set (st1 := mkState _ _).
    destruct i as [| s | z] eqn:Hi.
    + split; [auto |]. intros _.
      destruct (length accounts) as [| r]; [congruence |].
      cbn. unfold throw. eauto.
    + exfalso. subst i. revert Hi. unfold normalize.
      destruct (_ || _).
      * cbn. destruct (Z.of_nat (length accounts) =? 0); discriminate.
      * destruct (match fst (KV_get rotation_key (world st)) with
                  | Normal (Some kvIndex) => JS.parseInt kvIndex
                  | _ => currentAccountIndex
                  end) as [| [] | a]; cbn; try discriminate;
          destruct (Z.of_nat (length accounts) =? 0); discriminate.
    + assert (Hr : in_range accounts (Fin z)).
      { exists z. split; [reflexivity |].
        apply (normalize_in_range _ _ Hne Hi). }
      destruct (scan_in_bounds (Fin z) (length accounts) (Fin z) st1 Hr Hr)
        as (account & st' & Hscan & _).
      rewrite Hscan. split.
      * intros (e & st'' & Hthrow). discriminate.
      * intros [? | ?]; [contradiction | discriminate].
Qed.

(** C8, as the code has it. For a non-empty pool of N accounts: a failed
    cursor read and an absent cursor give index 0; a cursor that does not
    parse and a negative cursor give index 0; a cursor that parses to a
    number [z >= 0] gives [z mod N] (an in-range value is kept, a value
    of N or more is wrapped around, not replaced by 0). Whenever the
    start index is a number, it lies in [0, N) and [getAccount()]
    returns an account of the pool: every array access of the scan is in
    bounds. *)
Theorem cursor_normalized st :
  accounts <> [] ->
  let stored := fst (KV_get rotation_key (world st)) in
  let start := fst (startIndex accounts st) in
  ((forall kvIndex, stored <> Normal (Some kvIndex)) -> start = Normal (Fin 0))
  /\ (forall kvIndex, stored = Normal (Some kvIndex) ->
        (JS.parseInt kvIndex = NaN -> start = Normal (Fin 0))
        /\ (JS.parseInt kvIndex = Inf true -> start = Normal (Fin 0))
        /\ (forall z, JS.parseInt kvIndex = Fin z -> z < 0 ->
              start = Normal (Fin 0))
        /\ (forall z, JS.parseInt kvIndex = Fin z -> 0 <= z ->
              start = Normal (Fin (z mod N))))
  /\ (forall z, start = Normal (Fin z) ->
        0 <= z < N
        /\ exists account st',
             getAccount accounts st = (Normal (Some account), st')
             /\ account ∈ accounts).
Proof.
  intros Hne. cbn zeta. rewrite startIndex_cases. cbn [fst].
  split; [| split].
  - intros Habsent.
    destruct (fst (KV_get rotation_key (world st))) as [[kvIndex |] | e].
    + exfalso. exact (Habsent kvIndex eq_refl).
    + f_equal. apply normalize_zero; [exact Hne |].
      right; right. exists 0. split; [reflexivity | lia].
    + f_equal. apply normalize_zero; [exact Hne |].
      right; right. exists 0. split; [reflexivity | lia].
  - intros kvIndex ->. repeat split.
    + intros ->. f_equal. apply normalize_zero; auto.
    + intros ->. f_equal. apply normalize_zero; auto.
    + intros z -> Hz. f_equal. apply normalize_zero; [exact Hne |].
      right; right. exists z. split; [reflexivity | lia].
    + intros z -> Hz. f_equal. rewrite normalize_Fin by exact Hne.
      destruct (Z.ltb_spec z 0); [lia | reflexivity].
  - intros z [= Hz].
    pose proof (normalize_in_range _ _ Hne Hz) as Hrange.
    split; [exact Hrange |].
    assert (Hr : in_range accounts (Fin z)) by (exists z; auto).
    unfold getAccount.
    destruct (Nat.eqb_spec (length accounts) 0) as [Hlen | _].
    { apply nonempty_length_nat in Hne. congruence. }
    unfold bind. rewrite startIndex_cases. rewrite Hz.
    apply scan_in_bounds; exact Hr.
Qed.

(** A failed cursor read alone never makes [getAccount()] throw: it
    starts from index 0 and returns an account of the pool, whatever the
    health checks answer. *)
Lemma getAccount_survives_cursor_read_failure st e w :
  accounts <> [] ->
  KV_get rotation_key (world st) = (Throw e, w) ->
  exists account st',
    getAccount accounts st = (Normal (Some account), st')
    /\ account ∈ accounts.
Proof.
  intros Hne Hread. unfold getAccount.
  destruct (Nat.eqb_spec (length accounts) 0) as [Hlen | _].
  { apply nonempty_length_nat in Hne. congruence. }
  unfold bind. rewrite startIndex_cases, Hread. cbn [fst snd].
  assert (Hr : in_range accounts (normalize accounts currentAccountIndex)).
  { unfold currentAccountIndex. rewrite normalize_Fin by exact Hne.
    exists 0. split; [reflexivity |]. pose proof (nonempty_length Hne). cbn. lia. }
  apply scan_in_bounds; exact Hr.
Qed.

(** **** C1 *)

Section Fairness.
(** [Cursor st c]: in [st], the store holds [c] under the rotation key
    ([None]: nothing). *)
Variable Cursor : State W -> option string -> Prop.

Hypothesis pool_fits : 0 < N < 2 ^ 32.
Hypothesis read_latest : forall st c,
  Cursor st c ->
  exists w, KV_get rotation_key (world st) = (Normal c, w)
            /\ Cursor (mkState (localHealth st) w) c.
Hypothesis write_succeeds : forall st c v,
  Cursor st c ->
  exists w, KV_put rotation_key v (world st) = (Normal tt, w)
            /\ Cursor (mkState (localHealth st) w) (Some v).
Hypothesis all_healthy : forall st c account,
  Cursor st c -> account ∈ accounts ->
  exists st', isAccountHealthy (id account) st = (Normal true, st')
              /\ Cursor st' c.

Lemma getAccount_fair_step j st c :
  Cursor st c -> cursor_before accounts j c ->
  exists st' c',
    getAccount accounts st
    = (Normal (accounts !! (j mod length accounts)%nat), st')
    /\ Cursor st' c' /\ cursor_before accounts (S j) c'.
Proof.
  intros Hcur Hc.
  assert (Hne : accounts <> []).
  { intros ->. cbn in pool_fits. lia. }
  assert (Hlen : length accounts <> O) by lia.
  set (m := (j mod length accounts)%nat).
  assert (Hm : (m < length accounts)%nat) by (apply Nat.mod_upper_bound; exact Hlen).
  assert (Hmz : 0 <= Z.of_nat m < N) by lia.
  destruct (read_latest _ _ Hcur) as (w & Hread & Hcur1).
  assert (Hstart : startIndex accounts st
                   = (Normal (Fin (Z.of_nat m)), mkState (localHealth st) w)).
  { rewrite startIndex_cases, Hread. cbn [fst snd]. do 2 f_equal.
    destruct Hc as [[-> ->] | ->].
    - unfold currentAccountIndex. rewrite normalize_Fin by exact Hne.
      subst m. cbn. rewrite Z.mod_0_l by lia.
      rewrite Nat.Div0.mod_0_l. reflexivity.
    - rewrite JSFacts.parseInt_toString.
      + rewrite normalize_Fin by exact Hne. fold m.
        destruct (Z.ltb_spec (Z.of_nat m) 0); [lia |].
        rewrite Z.mod_small by lia. reflexivity.
      + fold m. assert (2 ^ 32 < 2 ^ 53) by reflexivity. lia. }
  destruct (lookup_lt_is_Some_2 accounts m Hm) as [account Ha].
  assert (Hidx : JS.index accounts (Fin (Z.of_nat m)) = Some account).
  { cbn. destruct (Z.leb_spec 0 (Z.of_nat m)); [| lia].
    rewrite Nat2Z.id. exact Ha. }
  assert (Hin : account ∈ accounts) by (apply list_elem_of_lookup; eauto).
  destruct (all_healthy _ _ _ Hcur1 Hin) as (st2 & Hhealthy & Hcur2).
  destruct (write_succeeds _ _
              (JS.toString (next accounts (Fin (Z.of_nat m)))) Hcur2)
    as (w' & Hput & Hcur3).
  exists (mkState (localHealth st2) w'), (Some (JS.toString (next accounts (Fin (Z.of_nat m))))).
  split; [| split; [exact Hcur3 |]].
  - unfold getAccount.
    destruct (Nat.eqb_spec (length accounts) 0) as [| _]; [lia |].
    unfold bind. rewrite Hstart.
    destruct (length accounts) as [| r] eqn:Hl; [lia |].
    rewrite (scan_selects _ _ _ _ _ _ Hidx Hhealthy), Hput.
    rewrite Ha. reflexivity.
  - right. do 3 f_equal. rewrite next_Fin by exact Hmz. f_equal.
    unfold m. rewrite !Nat2Z.inj_mod.
    rewrite Z.add_mod_idemp_l by lia.
    rewrite Nat2Z.inj_succ, <- Z.add_1_r. reflexivity.
Qed.

Lemma getAccount_times_fair k :
  forall j st c,
    Cursor st c -> cursor_before accounts j c ->
    getAccount_times accounts k st
    = map (fun n => Normal (accounts !! (n mod length accounts)%nat)) (seq j k).
Proof.
  induction k as [| k IH]; intros j st c Hcur Hc; [reflexivity |].
  cbn [getAccount_times seq map].
  destruct (getAccount_fair_step j st c Hcur Hc) as (st' & c' & Hcall & Hcur' & Hc').
  rewrite Hcall. f_equal. eapply IH; eassumption.
Qed.

Lemma lookups_in_order :
  map (fun n => Normal (accounts !! (n mod length accounts)%nat))
      (seq 0 (length accounts))
  = map (fun account => Normal (Some account)) accounts.
Proof.
  apply list_eq. intros n. rewrite !list_lookup_fmap.
  destruct (decide (n < length accounts)%nat) as [Hlt | Hge].
  - rewrite lookup_seq_lt by exact Hlt.
    destruct (lookup_lt_is_Some_2 accounts n Hlt) as [account Ha].
    rewrite Ha. cbn. rewrite Nat.mod_small by exact Hlt.
    rewrite Ha. reflexivity.
  - rewrite lookup_seq_ge by lia.
    rewrite lookup_ge_None_2 by lia. reflexivity.
Qed.

(** C1. On a store whose cursor reads return the value written last
    (nothing at first) and whose cursor writes succeed, and with
    [isAccountHealthy] answering [true] for every account of the pool,
    the first N calls of [getAccount()] return the N accounts once
    each, in configuration order from index 0, and call number [n]
    (from 0) returns the account at index [n mod N]: the sequence
    repeats after N calls. *)
Theorem round_robin_fair st0 :
  Cursor st0 None ->
  getAccount_times accounts (length accounts) st0
  = map (fun account => Normal (Some account)) accounts
  /\ forall k,
       getAccount_times accounts k st0
       = map (fun n => Normal (accounts !! (n mod length accounts)%nat))
             (seq 0 k).
Proof.
  intros Hcur.
  assert (Hc : cursor_before accounts 0 None) by (left; auto).
  split.
  - rewrite (getAccount_times_fair _ _ _ _ Hcur Hc). apply lookups_in_order.
  - intros k. exact (getAccount_times_fair _ _ _ _ Hcur Hc).
Qed.
End Fairness.
End ManagerFacts.

(* ================================================================== *)
(** ** Failure reports and failure counts *)
(* ================================================================== *)

Section ReportFacts.
Context {W : Type} `{Host W}.
Implicit Types (st : State W) (accountId : Z).

Lemma recordFailure_changes_local accountId st :
  localHealth (snd (recordFailure accountId st)) <> localHealth st.
Proof.
  rewrite recordFailure_local. intros Heq.
  assert (Hl : forall h, localHealth st !! accountId = Some h ->
                         failureCount h = failureCount_of st accountId + 1).
  { intros h Hh. rewrite <- Heq, lookup_insert_eq in Hh.
    injection Hh as <-. reflexivity. }
  unfold failureCount_of in Hl.
  destruct (localHealth st !! accountId) as [h |] eqn:Hh.
  - specialize (Hl h eq_refl). lia.
  - rewrite <- Heq, lookup_insert_eq in Hh. discriminate.
Qed.

(** C9. [reportFailure(account, statusCode)] is [recordFailure(account.id)]
    when the status code is 429 or 503, which changes the local cache;
    with any other status code it returns at once and leaves the whole
    state, local cache and store, as it was. *)
Theorem reportFailure_forwards account statusCode st :
  ((statusCode = 429 \/ statusCode = 503)
   /\ reportFailure account statusCode st = recordFailure (id account) st
   /\ localHealth (snd (reportFailure account statusCode st)) <> localHealth st)
  \/ (statusCode <> 429 /\ statusCode <> 503
      /\ reportFailure account statusCode st = (Normal tt, st)).
Proof.
  unfold reportFailure.
  destruct (Z.eqb_spec statusCode 429) as [-> | H429]; cbn [orb].
  - left. split; [auto |]. split; [reflexivity |].
    apply recordFailure_changes_local.
  - destruct (Z.eqb_spec statusCode 503) as [-> | H503].
    + left. split; [auto |]. split; [reflexivity |].
      apply recordFailure_changes_local.
    + right. auto.
Qed.

Variable accounts : list AuthManager.

Lemma failureCount_scan start remaining other :
  forall cur st,
    failureCount_of (snd (scan accounts start remaining cur st)) other
    < failureCount_of st other ->
    exists k cur' s account,
      skipped accounts k cur st = Some (cur', s)
      /\ JS.index accounts cur' = Some account
      /\ id account = other
      /\ adopts other s.
Proof.
  induction remaining as [| remaining IH]; intros cur st.
  - cbn. lia.
  - destruct (JS.index accounts cur) as [account |] eqn:Hidx.
    2: { cbn [scan]. rewrite Hidx. cbn. lia. }
    destruct (isAccountHealthy_returns (id account) st) as (b & st1 & Hcall).
    assert (Hfirst : failureCount_of st1 other < failureCount_of st other ->
      exists k cur' s account,
        skipped accounts k cur st = Some (cur', s)
        /\ JS.index accounts cur' = Some account
        /\ id account = other
        /\ adopts other s).
    { intros Hlt.
      replace st1 with (snd (isAccountHealthy (id account) st)) in Hlt
        by (rewrite Hcall; reflexivity).
      apply failureCount_isAccountHealthy in Hlt as [Hid Hadopt].
      exists O, cur, st, account. cbn. auto. }
    destruct b.
    + rewrite (scan_selects _ _ _ _ _ _ _ Hidx Hcall). exact Hfirst.
    + cbn [scan]. rewrite Hidx. unfold bind at 1. rewrite Hcall.
      intros Hlt.
      destruct (Z.lt_ge_cases (failureCount_of st1 other) (failureCount_of st other))
        as [Hdrop | Hkeep]; [exact (Hfirst Hdrop) |].
      destruct (IH (next accounts cur) st1) as (k & cur' & s & a & Hskip & Hrest);
        [lia |].
      exists (S k), cur', s, a. split; [| exact Hrest].
      cbn [skipped]. rewrite Hidx, Hcall. exact Hskip.
Qed.

(** C7, as the code has it. Over every sequence of tracker and rotator
    operations, an operation lowers the failure count of an account only
    if it is the [recordSuccess] of that account resetting to 0 a local
    record with a count above zero and the rate-limited flag down, or a
    health check of that account, made directly or by the scan of
    [getAccount], that adopts a record of the shared store whose cooldown
    has not ended (the local record, count included, is then replaced by
    the store's). *)
Theorem failureCount_lowered_only_by before op st0 accountId :
  let st := run accounts before st0 in
  failureCount_of (perform accounts op st) accountId < failureCount_of st accountId ->
  lowers accounts op st accountId.
Proof.
  cbn zeta. generalize (run accounts before st0). intros st.
  destruct op as [a | a | a | | account statusCode]; cbn [perform lowers].
  - pose proof (failureCount_recordFailure a accountId st). lia.
  - intros Hlt. apply failureCount_isAccountHealthy in Hlt. exact Hlt.
  - intros Hlt. apply failureCount_recordSuccess in Hlt. exact Hlt.
  - unfold getAccount.
    destruct (Nat.eqb (length accounts) 0); [cbn; lia |].
    unfold bind. rewrite startIndex_cases.
    set (i := normalize _ _). set (st1 := mkState _ _).
    change (failureCount_of st accountId) with (failureCount_of st1 accountId).
    intros Hlt.
    destruct (failureCount_scan _ _ _ _ _ Hlt) as (k & cur & s & a & Hskip & Hrest).
    exists i, st1, k, cur, s, a. auto.
  - unfold reportFailure. destruct (_ || _).
    + pose proof (failureCount_recordFailure (id account) accountId st). lia.
    + cbn. lia.
Qed.
End ReportFacts.



(* ================================================================== *)
(** ** The scenarios, run *)
(* ================================================================== *)

Section OnSim.
Import Scenario.

Lemma tick_keeps w :
  Sim.text (snd (Sim.tick w)) = Sim.text w
  /\ Sim.json (snd (Sim.tick w)) = Sim.json w
  /\ Sim.reads_fail (snd (Sim.tick w)) = Sim.reads_fail w
  /\ Sim.writes_fail (snd (Sim.tick w)) = Sim.writes_fail w.
Proof.
  unfold Sim.tick. destruct (Sim.clock w) as [| now [| next later]]; cbn; auto.
Qed.

Lemma sim_read_latest (st : State Sim.t) c :
  Cursor st c ->
  exists w, KV_get rotation_key (world st) = (Normal c, w)
            /\ Cursor (mkState (localHealth st) w) c.
Proof.
  intros (Htext & Hjson & Hreads & Hwrites & Hlocal).
  exists (world st). split.
  - cbn. unfold Sim.get. rewrite Hreads, Htext. reflexivity.
  - repeat split; assumption.
Qed.

Lemma sim_write_succeeds (st : State Sim.t) c v :
  Cursor st c ->
  exists w, KV_put rotation_key v (world st) = (Normal tt, w)
            /\ Cursor (mkState (localHealth st) w) (Some v).
Proof.
  intros (Htext & Hjson & Hreads & Hwrites & Hlocal).
  eexists. split.
  - cbn. unfold Sim.put. rewrite Hwrites. reflexivity.
  - repeat split; cbn; try assumption. apply lookup_insert_eq.
Qed.

Lemma sim_all_healthy (st : State Sim.t) c account :
  Cursor st c -> account ∈ pool ->
  exists st', isAccountHealthy (id account) st = (Normal true, st')
              /\ Cursor st' c.
Proof.
  intros (Htext & Hjson & Hreads & Hwrites & Hlocal) _.
  destruct (tick_keeps (world st)) as (Kt & Kj & Kr & Kw).
  destruct (Sim.tick (world st)) as [now w] eqn:Htick. cbn [snd] in *.
  assert (Hnow : Date_now (world st) = (now, w)) by exact Htick.
  rewrite (isAccountHealthy_cases (id account) st now w Hnow).
  rewrite Hlocal, lookup_empty, checkKV_cases. cbn.
  unfold Sim.get_json. rewrite Kr, Hreads, Kj, Hjson, lookup_empty.
  eexists. split; [reflexivity |].
  repeat split; cbn; congruence.
Qed.

(** Witness of C1: three accounts on an empty store that works. *)
Lemma round_robin_fair_witness :
  getAccount_times pool 3 quiet
  = [Normal (Some A0); Normal (Some A1); Normal (Some A2)]
  /\ forall k,
       getAccount_times pool k quiet
       = map (fun n => Normal (pool !! (n mod 3)%nat)) (seq 0 k).
Proof.
  apply (round_robin_fair pool Cursor).
  - vm_compute. split; reflexivity.
  - exact sim_read_latest.
  - exact sim_write_succeeds.
  - exact sim_all_healthy.
  - repeat split.
Defined.

(** Witness of C2: all three accounts cooling down, the cursor at 1. *)
Lemma all_unhealthy_returns_start_witness :
  fst (getAccount pool saturated) = Normal (Some A1).
Proof.
  destruct (all_unhealthy_returns_start pool saturated (Fin 1)
              (snd (startIndex pool saturated)) (Fin 1)
              (snd (default (NaN, saturated)
                      (skipped pool 3 (Fin 1) (snd (startIndex pool saturated))))))
    as (account & Hidx & Hcall).
  - discriminate.
  - vm_compute. reflexivity.
  - vm_compute. reflexivity.
  - vm_compute in Hidx. injection Hidx as <-. rewrite Hcall. reflexivity.
Defined.

(** Witness of C3: a failure at time 0, checks at 30s and at 61s. *)
Lemma cooldown_window_witness :
  Forall (fun check => snd check = Normal (negb (fst check <? 0 + 60 * 1000)))
         (health_checks 1 2 (snd (recordFailure 1 before_failure))).
Proof.
  refine (cooldown_window 1 before_failure 2 _).
  intros w r w' Hread. cbn in Hread. injection Hread as <- _. exact I.
Defined.

(** Witness of C4: failures of account 1 at 0s and at 30s. *)
Lemma recordFailure_record_witness :
  localHealth (snd (recordFailure 1 before_two_failures)) !! 1
  = Some {| isRateLimited := true; lastRateLimitTime := 0;
            failureCount := 1; cooldownEnds := 60000 |}
  /\ localHealth (snd (recordFailure 1 (snd (recordFailure 1 before_two_failures)))) !! 1
     = Some {| isRateLimited := true; lastRateLimitTime := 30000;
               failureCount := 2; cooldownEnds := 90000 |}.
Proof.
  destruct (recordFailure_record 1 before_two_failures) as [Hfirst Hsecond].
  split.
  - exact Hfirst.
  - apply Hsecond. reflexivity.
Defined.

(** Witness of C5: a fresh worker, every read of the store fails. *)
Lemma isAccountHealthy_fails_open_witness :
  fst (isAccountHealthy 1 unreachable) = Normal true.
Proof.
  rewrite (isAccountHealthy_fails_open 1 unreachable 5000 (world unreachable)
             (HostError "KV GET failed") (world unreachable)).
  - reflexivity.
  - reflexivity.
  - exact I.
  - reflexivity.
Defined.

(** C6, at the failing input: with three accounts configured and a
    numeral of 310 digits under the rotation key, [parseInt] returns
    [Infinity], which passes the [isNaN]/[< 0] guard; [Infinity % 3] is
    [NaN], [accounts[NaN]] is [undefined], and reading its [id] throws:
    [getAccount()] throws although the pool is not empty. *)
Theorem getAccount_throws_on_overflowing_cursor :
  pool <> []
  /\ JS.parseInt numeral_1e309 = Inf false
  /\ fst (startIndex pool cursor_overflows) = Normal NaN
  /\ fst (getAccount pool cursor_overflows)
     = Throw (TypeError "Cannot read properties of undefined (reading 'id')").
Proof.
  split; [discriminate |]. split; [vm_compute; reflexivity |].
  split; vm_compute; reflexivity.
Qed.

(** Counterexample to C7: a worker that counts two failures of account 1
    checks the account after another worker's first failure; the health
    check adopts the other worker's record, and the count falls from 2 to
    1 without any [recordSuccess]. *)
Lemma failureCount_drops_on_adoption :
  failureCount_of after_foreign_failure 1 = 2
  /\ fst (isAccountHealthy 1 after_foreign_failure) = Normal false
  /\ failureCount_of (perform pool (OpIsAccountHealthy 1) after_foreign_failure) 1 = 1
  /\ ~ (failureCount_of after_foreign_failure 1
        <= failureCount_of (perform pool (OpIsAccountHealthy 1) after_foreign_failure) 1).
Proof.
  split; [vm_compute; reflexivity |]. split; [vm_compute; reflexivity |].
  split; [vm_compute; reflexivity |]. vm_compute. intros Hle. apply Hle. reflexivity.
Qed.

(** Witness of C7: the same health check. *)
Lemma failureCount_lowered_only_by_witness :
  lowers pool (OpIsAccountHealthy 1) after_foreign_failure 1.
Proof.
  apply (failureCount_lowered_only_by pool [] (OpIsAccountHealthy 1)
           after_foreign_failure 1).
  vm_compute. reflexivity.
Defined.

(** Counterexample to C8: with three accounts and 4 under the rotation
    key, a value out of the range [0, 3), the scan does not start at
    index 0 but at index 1, and [getAccount()] returns the second
    account. *)
Lemma out_of_range_cursor_wraps :
  JS.parseInt "4" = Fin 4
  /\ ~ (0 <= 4 < Z.of_nat (length pool))
  /\ fst (startIndex pool cursor_at_4) = Normal (Fin 1)
  /\ fst (startIndex pool cursor_at_4) <> Normal (Fin 0)
  /\ fst (getAccount pool cursor_at_4) = Normal (Some A1).
Proof.
  split; [vm_compute; reflexivity |]. split; [cbn; lia |].
  split; [vm_compute; reflexivity |]. split; [vm_compute; discriminate |].
  vm_compute. reflexivity.
Qed.

(** Witness of C8: the same pool and store. *)
Lemma cursor_normalized_witness :
  fst (startIndex pool cursor_at_4) = Normal (Fin (4 mod 3))
  /\ exists account st',
       getAccount pool cursor_at_4 = (Normal (Some account), st')
       /\ account ∈ pool.
Proof.
  destruct (cursor_normalized pool cursor_at_4) as (_ & Hstored & Hbounds).
  - discriminate.
  - destruct (Hstored "4" eq_refl) as (_ & _ & _ & Hwrap).
    split.
    + apply (Hwrap 4); [vm_compute; reflexivity | lia].
    + apply (Hbounds 1). vm_compute. reflexivity.
Defined.

(** Witness of C10: the cursor at 1, account 1 cooling down, account 2
    healthy, and a store that rejects every write. *)
Lemma cursor_write_failure_swallowed_witness :
  fst (getAccount pool read_only) = Normal (Some A2).
Proof.
  set (st1 := snd (startIndex pool read_only)).
  set (st2 := snd (default (NaN, read_only) (skipped pool 1 (Fin 1) st1))).
  set (st3 := snd (isAccountHealthy 2 st2)).
  rewrite (cursor_write_failure_swallowed pool read_only (Fin 1) st1 1%nat
             (Fin 2) st2 A2 st3 (HostError "KV PUT failed") (world st3)).
  - reflexivity.
  - discriminate.
  - vm_compute. reflexivity.
  - cbn. lia.
  - vm_compute. reflexivity.
  - reflexivity.
  - vm_compute. reflexivity.
  - vm_compute. reflexivity.
Defined.
End OnSim.

(* ================================================================== *)
(** ** More on the health tracker *)
(* ================================================================== *)

Section MoreTrackerFacts.
Context {W : Type} `{Host W}.
Implicit Types (st : State W) (accountId other now : Z).

(** [isAccountHealthy] in full, by the local record and by what the store
    answers. *)
Lemma isAccountHealthy_spec accountId st now w :
  Date_now (world st) = (now, w) ->
  isAccountHealthy accountId st
  = if cooling_locally st accountId now
    then (Normal false, mkState (localHealth st) w)
    else
      match KV_get_json (health_key accountId) w with
      | (Normal (Some kvHealth), w') =>
          if now <? cooldownEnds kvHealth
          then (Normal false, mkState (<[accountId := kvHealth]> (localHealth st)) w')
          else (Normal true, mkState (after_local_check accountId st) w')
      | (_, w') => (Normal true, mkState (after_local_check accountId st) w')
      end.
Proof.
  intros Hnow. rewrite (isAccountHealthy_cases _ _ _ _ Hnow).
  unfold cooling_locally.
  destruct (localHealth st !! accountId) as [localStatus |] eqn:Hl.
  - destruct (now <? cooldownEnds localStatus); [reflexivity |].
    rewrite checkKV_cases. cbn [world localHealth].
    destruct (KV_get_json (health_key accountId) w) as [[[kv |] | e] w'];
      try reflexivity.
    destruct (now <? cooldownEnds kv); [| reflexivity].
    rewrite insert_after_local_check. reflexivity.
  - rewrite checkKV_cases. cbn [world localHealth].
    rewrite (after_local_check_None _ _ Hl).
    destruct (KV_get_json (health_key accountId) w) as [[[kv |] | e] w'];
      reflexivity.
Qed.

Lemma recordSuccess_local accountId st :
  recordSuccess accountId st
  = (Normal tt,
     mkState
       match localHealth st !! accountId with
       | Some current =>
           if (0 <? failureCount current) && negb (isRateLimited current)
           then <[accountId := set_failureCount 0 current]> (localHealth st)
           else localHealth st
       | None => localHealth st
       end (world st)).
Proof.
  unfold recordSuccess. unfold_monad. destruct st as [l w]. cbn.
  destruct (l !! accountId) as [current |]; [| reflexivity].
  destruct (_ && _); reflexivity.
Qed.

(** [recordFailure] in full: the record it stores, and the write it
    attempts after a second reading of the clock. *)
Lemma recordFailure_spec accountId st :
  recordFailure accountId st
  = let now := fst (Date_now (world st)) in
    let w1 := snd (Date_now (world st)) in
    let record :=
      {| isRateLimited := true;
         lastRateLimitTime := now;
         failureCount := failureCount_of st accountId + 1;
         cooldownEnds := now + DEFAULT_COOLDOWN_MS |} in
    let ttl := Math_ceil_div (now + DEFAULT_COOLDOWN_MS - fst (Date_now w1)) 1000 in
    (Normal tt,
     mkState (<[accountId := record]> (localHealth st))
       (if 0 <? ttl
        then snd (KV_put_json (health_key accountId) record ttl (snd (Date_now w1)))
        else snd (Date_now w1))).
Proof.
  cbn zeta. unfold recordFailure, persistHealthToKV, failureCount_of. unfold_monad.
  destruct (Date_now (world st)) as [now w1]. cbn.
  rewrite or_zero_id.
  destruct (Date_now w1) as [now' w2]. cbn.
  destruct (0 <? _); cbn; [| reflexivity].
  destruct (KV_put_json _ _ _ w2) as [[[] | e] w3]; reflexivity.
Qed.

Lemma isAccountHealthy_adopts accountId st now w kvHealth :
  Date_now (world st) = (now, w) ->
  cooling_locally st accountId now = false ->
  fst (KV_get_json (health_key accountId) w) = Normal (Some kvHealth) ->
  now < cooldownEnds kvHealth ->
  fst (isAccountHealthy accountId st) = Normal false
  /\ localHealth (snd (isAccountHealthy accountId st))
     = <[accountId := kvHealth]> (localHealth st).
Proof.
  intros Hnow Hlocal Hread Hactive.
  rewrite (isAccountHealthy_spec _ _ _ _ Hnow), Hlocal.
  destruct (KV_get_json (health_key accountId) w) as [r w']. cbn in Hread.
  subst r. destruct (Z.ltb_spec now (cooldownEnds kvHealth)); [| lia].
  split; reflexivity.
Qed.

Lemma isAccountHealthy_other accountId other st :
  accountId <> other ->
  localHealth (snd (isAccountHealthy accountId st)) !! other
  = localHealth st !! other.
Proof.
  intros Hne. destruct (Date_now (world st)) as [now w] eqn:Hnow.
  rewrite (isAccountHealthy_spec _ _ _ _ Hnow).
  destruct (cooling_locally st accountId now); [reflexivity |].
  destruct (KV_get_json (health_key accountId) w) as [[[kv |] | e] w'];
    cbn [snd localHealth]; try (apply after_local_check_ne; exact Hne).
  destruct (now <? cooldownEnds kv); cbn [snd localHealth].
  - apply lookup_insert_ne. exact Hne.
  - apply after_local_check_ne. exact Hne.
Qed.

(** X1. A call of [recordFailure], [isAccountHealthy] or [recordSuccess]
    for one account leaves the local record of every other account as it
    was. *)
Theorem tracker_calls_keep_other_accounts accountId other st :
  accountId <> other ->
  localHealth (snd (recordFailure accountId st)) !! other = localHealth st !! other
  /\ localHealth (snd (isAccountHealthy accountId st)) !! other = localHealth st !! other
  /\ localHealth (snd (recordSuccess accountId st)) !! other = localHealth st !! other.
Proof.
  intros Hne. split; [| split].
  - rewrite recordFailure_local. apply lookup_insert_ne. exact Hne.
  - apply isAccountHealthy_other. exact Hne.
  - rewrite recordSuccess_local. cbn [snd localHealth].
    destruct (localHealth st !! accountId) as [current |]; [| reflexivity].
    destruct (_ && _); [| reflexivity].
    apply lookup_insert_ne. exact Hne.
Qed.

Lemma failureCount_after_recordFailure accountId st :
  failureCount_of (snd (recordFailure accountId st)) accountId
  = failureCount_of st accountId + 1.
Proof.
  unfold failureCount_of at 1.
  rewrite recordFailure_local, lookup_insert_eq. reflexivity.
Qed.

(** X2. [n] calls of [recordFailure(id)] in a row raise the failure count
    of [id] by [n]: no call is lost and none counts twice. *)
Theorem recordFailure_times_counts accountId n st :
  failureCount_of (recordFailure_times accountId n st) accountId
  = failureCount_of st accountId + Z.of_nat n.
Proof.
  induction n as [| n IH].
  - cbn. lia.
  - change (recordFailure_times accountId (S n) st)
      with (snd (recordFailure accountId (recordFailure_times accountId n st))).
    rewrite failureCount_after_recordFailure, IH. lia.
Qed.

(** X3. A [recordSuccess(id)] that follows a [recordFailure(id)] changes
    nothing: the record is flagged rate limited, so its failure count is
    kept. *)
Theorem recordSuccess_after_failure_keeps accountId st :
  recordSuccess accountId (snd (recordFailure accountId st))
  = (Normal tt, snd (recordFailure accountId st)).
Proof.
  rewrite recordSuccess_local, recordFailure_local, lookup_insert_eq.
  cbn [isRateLimited negb]. rewrite andb_false_r.
  destruct (snd (recordFailure accountId st)) as [l w] eqn:Hst.
  pose proof (recordFailure_local accountId st) as Hl. rewrite Hst in Hl.
  cbn in Hl. cbn. rewrite Hl. reflexivity.
Qed.

(** X4. Calling [recordSuccess(id)] a second time changes nothing. *)
Theorem recordSuccess_idempotent accountId st :
  recordSuccess accountId (snd (recordSuccess accountId st))
  = (Normal tt, snd (recordSuccess accountId st)).
Proof.
  rewrite (recordSuccess_local accountId (snd _)).
  rewrite recordSuccess_local. cbn [snd localHealth world].
  destruct (localHealth st !! accountId) as [current |] eqn:Hl.
  - destruct ((0 <? failureCount current) && negb (isRateLimited current)) eqn:Hc.
    + rewrite lookup_insert_eq. cbn. reflexivity.
    + rewrite Hl, Hc. reflexivity.
  - rewrite Hl. reflexivity.
Qed.

Lemma cooling_after_recordSuccess accountId other st now :
  cooling_locally (snd (recordSuccess other st)) accountId now
  = cooling_locally st accountId now.
Proof.
  unfold cooling_locally. rewrite recordSuccess_local. cbn [snd localHealth].
  destruct (localHealth st !! other) as [current |] eqn:Hl; [| reflexivity].
  destruct (_ && _); [| reflexivity].
  destruct (decide (other = accountId)) as [<- | Hne].
  - rewrite lookup_insert_eq, Hl. reflexivity.
  - rewrite lookup_insert_ne by exact Hne. reflexivity.
Qed.

(** X5. [recordSuccess] never changes what [isAccountHealthy] answers: a
    success neither ends nor shortens a cooldown, for any account. *)
Theorem recordSuccess_keeps_verdict accountId other st :
  fst (isAccountHealthy accountId (snd (recordSuccess other st)))
  = fst (isAccountHealthy accountId st).
Proof.
  destruct (Date_now (world st)) as [now w] eqn:Hnow.
  assert (Hnow' : Date_now (world (snd (recordSuccess other st))) = (now, w)).
  { rewrite recordSuccess_local. exact Hnow. }
  rewrite (isAccountHealthy_spec _ _ _ _ Hnow'), (isAccountHealthy_spec _ _ _ _ Hnow).
  rewrite cooling_after_recordSuccess.
  destruct (cooling_locally st accountId now); [reflexivity |].
  destruct (KV_get_json (health_key accountId) w) as [[[kv |] | e] w'];
    try reflexivity.
  destruct (now <? cooldownEnds kv); reflexivity.
Qed.

(** X6. Once [isAccountHealthy(id)] has answered [true], a
    [recordSuccess(id)] leaves the failure count of [id] at 0 (for a count
    that was not negative). *)
Theorem healthy_then_success_resets accountId st st' :
  isAccountHealthy accountId st = (Normal true, st') ->
  0 <= failureCount_of st accountId ->
  failureCount_of (snd (recordSuccess accountId st')) accountId = 0.
Proof.
  intros Hcall Hcount.
  destruct (Date_now (world st)) as [now w] eqn:Hnow.
  rewrite (isAccountHealthy_spec _ _ _ _ Hnow) in Hcall.
  assert (Hlocal : localHealth st' = after_local_check accountId st).
  { destruct (cooling_locally st accountId now); [discriminate |].
    destruct (KV_get_json (health_key accountId) w) as [[[kv |] | e] w'];
      try (injection Hcall as <-; reflexivity).
    destruct (now <? cooldownEnds kv); [discriminate |].
    injection Hcall as <-. reflexivity. }
  unfold failureCount_of in *. rewrite recordSuccess_local.
  cbn [snd localHealth]. rewrite Hlocal.
  destruct (localHealth st !! accountId) as [localStatus |] eqn:Hl.
  - rewrite (after_local_check_lookup _ _ _ Hl). cbn [failureCount isRateLimited set_isRateLimited negb].
    rewrite andb_true_r.
    destruct (Z.ltb_spec 0 (failureCount localStatus)).
    + rewrite lookup_insert_eq. reflexivity.
    + rewrite (after_local_check_lookup _ _ _ Hl). cbn. lia.
  - rewrite after_local_check_None, Hl by exact Hl. rewrite Hl. reflexivity.
Qed.
End MoreTrackerFacts.

(* ================================================================== *)
(** ** The keys the code uses *)
(* ================================================================== *)

Module KeyFacts.
Import JS JSFacts.

Lemma leading_digits_decimal n : 0 <= n -> leading_digits (decimal n) None = Some n.
Proof.
  intros Hn. unfold decimal.
  destruct (leading_digits_digits_go (S (Z.to_nat (Z.log2 n))) n ""
              ltac:(lia) (decimal_fuel n Hn)) as (k & _ & Hread).
  rewrite Hread. cbn. reflexivity.
Qed.

Lemma decimal_inj a b : 0 <= a -> 0 <= b -> decimal a = decimal b -> a = b.
Proof.
  intros Ha Hb Heq.
  pose proof (leading_digits_decimal a Ha) as Hra.
  rewrite Heq, (leading_digits_decimal b Hb) in Hra. congruence.
Qed.

Lemma decimal_not_minus n rest : 0 <= n -> decimal n <> String "-" rest.
Proof.
  intros Hn. unfold decimal.
  destruct (digits_go_head (S (Z.to_nat (Z.log2 n))) n "" ltac:(lia) Hn)
    as (d & tail & Hd & ->).
  each_digit d Hd; discriminate.
Qed.

(** Distinct integers print differently. *)
Lemma toString_inj a b : toString (Fin a) = toString (Fin b) -> a = b.
Proof.
  unfold toString.
  destruct (Z.ltb_spec a 0) as [Ha | Ha], (Z.ltb_spec b 0) as [Hb | Hb];
    intros Heq.
  - injection Heq as Heq. apply decimal_inj in Heq; lia.
  - symmetry in Heq. apply decimal_not_minus in Heq; [contradiction | lia].
  - apply decimal_not_minus in Heq; [contradiction | lia].
  - apply decimal_inj; assumption.
Qed.

Lemma append_inj_r (p a b : string) : String.append p a = String.append p b -> a = b.
Proof.
  induction p as [| c p IH]; cbn; [auto |].
  intros [= Heq]. auto.
Qed.

Lemma health_key_inj a b : health_key a = health_key b -> a = b.
Proof. intros Heq. apply toString_inj, (append_inj_r _ _ _ Heq). Qed.

Lemma numbered_key_inj a b : numbered_key a = numbered_key b -> a = b.
Proof. intros Heq. apply toString_inj, (append_inj_r _ _ _ Heq). Qed.

(** X7. The keys under which the code keeps its shared state never
    collide: two accounts have different health keys, and no health key is
    the key of the rotation cursor. *)
Theorem kv_keys_distinct a b :
  (health_key a = health_key b <-> a = b)
  /\ health_key a <> rotation_key.
Proof.
  split; [split |].
  - apply health_key_inj.
  - intros ->. reflexivity.
  - discriminate.
Qed.
End KeyFacts.

(* ================================================================== *)
(** ** What the tracker asks of the store *)
(* ================================================================== *)

Section TrackerTraffic.
Context {W : Type} `{Host W}.
Local Open Scope list_scope.
Implicit Types (st : State (Traced.t W)) (accountId now : Z).

Lemma traced_now (w : Traced.t W) :
  Date_now w
  = (fst (Date_now (Traced.inner w)),
     Traced.mk (Traced.log w ++ [EvNow (fst (Date_now (Traced.inner w)))])
               (snd (Date_now (Traced.inner w)))).
Proof. cbn. unfold Traced.tick. destruct (Date_now (Traced.inner w)); reflexivity. Qed.

Lemma traced_get_json k (w : Traced.t W) :
  KV_get_json k w
  = (fst (KV_get_json k (Traced.inner w)),
     Traced.mk (Traced.log w ++ [EvGetJson k (fst (KV_get_json k (Traced.inner w)))])
               (snd (KV_get_json k (Traced.inner w)))).
Proof. cbn. unfold Traced.get_json. destruct (KV_get_json k (Traced.inner w)); reflexivity. Qed.

Lemma traced_put_json k h ttl (w : Traced.t W) :
  KV_put_json k h ttl w
  = (fst (KV_put_json k h ttl (Traced.inner w)),
     Traced.mk (Traced.log w
                ++ [EvPutJson k h ttl (fst (KV_put_json k h ttl (Traced.inner w)))])
               (snd (KV_put_json k h ttl (Traced.inner w)))).
Proof.
  cbn. unfold Traced.put_json.
  destruct (KV_put_json k h ttl (Traced.inner w)); reflexivity.
Qed.

Lemma traced_get k (w : Traced.t W) :
  KV_get k w
  = (fst (KV_get k (Traced.inner w)),
     Traced.mk (Traced.log w ++ [EvGet k (fst (KV_get k (Traced.inner w)))])
               (snd (KV_get k (Traced.inner w)))).
Proof. cbn. unfold Traced.get. destruct (KV_get k (Traced.inner w)); reflexivity. Qed.

Lemma traced_put k v (w : Traced.t W) :
  KV_put k v w
  = (fst (KV_put k v (Traced.inner w)),
     Traced.mk (Traced.log w ++ [EvPut k v (fst (KV_put k v (Traced.inner w)))])
               (snd (KV_put k v (Traced.inner w)))).
Proof. cbn. unfold Traced.put. destruct (KV_put k v (Traced.inner w)); reflexivity. Qed.

Lemma Math_ceil_div_bounds a :
  1000 * (Math_ceil_div a 1000 - 1) < a <= 1000 * Math_ceil_div a 1000.
Proof.
  unfold Math_ceil_div.
  pose proof (Z.div_mod (- a) 1000 ltac:(lia)).
  pose proof (Z.mod_pos_bound (- a) 1000 ltac:(lia)). lia.
Qed.

(** What one health check appends to the log: the clock reading, then
    nothing on the fast path and one read of the account's key otherwise. *)
Lemma isAccountHealthy_trace accountId st :
  let now := fst (Date_now (Traced.inner (world st))) in
  trace (snd (isAccountHealthy accountId st))
  = trace st ++ EvNow now ::
      if cooling_locally st accountId now then []
      else [EvGetJson (health_key accountId)
              (fst (KV_get_json (health_key accountId)
                      (snd (Date_now (Traced.inner (world st))))))].
Proof.
  cbn zeta.
  rewrite (isAccountHealthy_spec accountId st _ _ (traced_now (world st))).
  destruct (cooling_locally st accountId _); [reflexivity |].
  rewrite traced_get_json. cbn [Traced.inner Traced.log].
  unfold trace. rewrite <- app_assoc. cbn [app].
  destruct (fst (KV_get_json _ _)) as [[kv |] | e]; try reflexivity.
  destruct (_ <? cooldownEnds kv); reflexivity.
Qed.

(** X8. While the local record of an account has its cooldown ahead,
    [isAccountHealthy] answers [false] from the local cache alone: it reads
    the clock, makes no call to the store and leaves the cache as it is. *)
Theorem isAccountHealthy_fast_path accountId st localStatus :
  let now := fst (Date_now (Traced.inner (world st))) in
  localHealth st !! accountId = Some localStatus ->
  now < cooldownEnds localStatus ->
  fst (isAccountHealthy accountId st) = Normal false
  /\ localHealth (snd (isAccountHealthy accountId st)) = localHealth st
  /\ trace (snd (isAccountHealthy accountId st)) = trace st ++ [EvNow now].
Proof.
  cbn zeta. intros Hl Hcool.
  assert (Hc : cooling_locally st accountId
                 (fst (Date_now (Traced.inner (world st)))) = true).
  { unfold cooling_locally. rewrite Hl. apply Z.ltb_lt. exact Hcool. }
  split; [| split].
  - rewrite (isAccountHealthy_spec accountId st _ _ (traced_now (world st))), Hc.
    reflexivity.
  - rewrite (isAccountHealthy_spec accountId st _ _ (traced_now (world st))), Hc.
    reflexivity.
  - rewrite isAccountHealthy_trace, Hc. reflexivity.
Qed.

(** X9. A call of [isAccountHealthy(id)] reads the clock once and then
    makes at most one call to the store, a read of the key of [id]; it
    never writes to the store. *)
Theorem isAccountHealthy_store_traffic accountId st :
  exists now calls,
    trace (snd (isAccountHealthy accountId st)) = trace st ++ EvNow now :: calls
    /\ (calls = [] \/ exists r, calls = [EvGetJson (health_key accountId) r]).
Proof.
  eexists _, _. split; [apply isAccountHealthy_trace |].
  destruct (cooling_locally st accountId _); eauto.
Qed.

(** X10. [persistHealthToKV] writes the record under the account's key
    exactly when its cooldown ends after the clock reading, and then with
    a TTL in seconds that covers the rest of the cooldown and exceeds it by
    less than a second; for a cooldown that is over it does not call the
    store. *)
Theorem persistHealthToKV_ttl accountId health st :
  let now := fst (Date_now (Traced.inner (world st))) in
  let rest := cooldownEnds health - now in
  let after := persistHealthToKV accountId health st in
  (rest <= 0 ->
     fst after = Normal tt /\ trace (snd after) = trace st ++ [EvNow now])
  /\ (0 < rest ->
      exists ttl,
        1000 * (ttl - 1) < rest <= 1000 * ttl
        /\ trace (snd after)
           = trace st ++ [EvNow now;
                          EvPutJson (health_key accountId) health ttl (fst after)]).
Proof.
  cbn zeta. unfold persistHealthToKV. unfold_monad.
  rewrite traced_now. cbn [fst snd world localHealth].
  set (now := fst (Date_now (Traced.inner (world st)))).
  pose proof (Math_ceil_div_bounds (cooldownEnds health - now)) as Hceil.
  split.
  - intros Hrest.
    destruct (Z.ltb_spec 0 (Math_ceil_div (cooldownEnds health - now) 1000));
      [lia |].
    split; reflexivity.
  - intros Hrest.
    destruct (Z.ltb_spec 0 (Math_ceil_div (cooldownEnds health - now) 1000));
      [| lia].
    exists (Math_ceil_div (cooldownEnds health - now) 1000).
    split; [exact Hceil |].
    rewrite traced_put_json. cbn [fst snd world Traced.log Traced.inner].
    unfold trace. cbn [world Traced.log]. rewrite <- app_assoc. reflexivity.
Qed.

(** X11. [recordFailure(id)] never throws, whatever the store does. It reads
    the clock twice and never reads the store; it writes to the store at
    most once, and only the record it has just put in the local cache,
    under the key of [id], with a TTL that covers the rest of the cooldown:
    between 1 and 60 seconds when the clock did not go back between the
    two readings. When a minute or more passed between them, it writes
    nothing. *)
Theorem recordFailure_store_traffic accountId st :
  let now := fst (Date_now (Traced.inner (world st))) in
  let now' := fst (Date_now (snd (Date_now (Traced.inner (world st))))) in
  let after := recordFailure accountId st in
  fst after = Normal tt
  /\ exists calls,
       trace (snd after) = trace st ++ EvNow now :: EvNow now' :: calls
       /\ ((now + 60 * 1000 <= now' /\ calls = [])
           \/ (now' < now + 60 * 1000
               /\ exists record ttl r,
                    calls = [EvPutJson (health_key accountId) record ttl r]
                    /\ localHealth (snd after) !! accountId = Some record
                    /\ 1000 * (ttl - 1) < now + 60 * 1000 - now' <= 1000 * ttl
                    /\ (now <= now' -> 1 <= ttl <= 60))).
Proof.
  cbn zeta. split; [apply recordFailure_returns |].
  rewrite (recordFailure_spec accountId st).
  repeat (rewrite traced_now; cbn [fst snd Traced.inner Traced.log localHealth]).
  set (now := fst (Date_now (Traced.inner (world st)))).
  set (now' := fst (Date_now (snd (Date_now (Traced.inner (world st)))))).
  pose proof (Math_ceil_div_bounds (now + DEFAULT_COOLDOWN_MS - now')) as Hceil.
  change DEFAULT_COOLDOWN_MS with (60 * 1000) in *.
  destruct (Z.ltb_spec 0 (Math_ceil_div (now + 60 * 1000 - now') 1000)) as [Hpos | Hnon].
  - rewrite traced_put_json. cbn [fst snd Traced.inner Traced.log].
    eexists. split.
    + unfold trace. cbn [world Traced.log].
      rewrite <- !app_assoc. cbn [app]. reflexivity.
    + right. split; [lia |].
      eexists _, _, _. split; [reflexivity |]. split.
      * apply lookup_insert_eq.
      * split; [exact Hceil | lia].
  - exists []. split.
    + unfold trace. cbn [world Traced.log].
      rewrite <- !app_assoc. reflexivity.
    + left. split; [lia | reflexivity].
Qed.

(** X12. When [isAccountHealthy(id)] finds in the store a record of [id]
    whose cooldown has not ended, it answers [false] and takes the record
    into the local cache; a next call made before that cooldown ends
    answers [false] without calling the store. *)
Theorem adopted_cooldown_short_circuits accountId st kvHealth :
  let now := fst (Date_now (Traced.inner (world st))) in
  let st1 := snd (isAccountHealthy accountId st) in
  let now1 := fst (Date_now (Traced.inner (world st1))) in
  cooling_locally st accountId now = false ->
  fst (KV_get_json (health_key accountId) (snd (Date_now (Traced.inner (world st)))))
  = Normal (Some kvHealth) ->
  now < cooldownEnds kvHealth ->
  fst (isAccountHealthy accountId st) = Normal false
  /\ localHealth st1 !! accountId = Some kvHealth
  /\ (now1 < cooldownEnds kvHealth ->
      fst (isAccountHealthy accountId st1) = Normal false
      /\ trace (snd (isAccountHealthy accountId st1)) = trace st1 ++ [EvNow now1]).
Proof.
  cbn zeta. intros Hlocal Hread Hactive.
  destruct (isAccountHealthy_adopts accountId st _ _ kvHealth
              (traced_now (world st)) Hlocal) as [Hverdict Hcache].
  { rewrite traced_get_json. exact Hread. }
  { exact Hactive. }
  split; [exact Hverdict |].
  split; [rewrite Hcache; apply lookup_insert_eq |].
  intros Hstill.
  set (st1 := snd (isAccountHealthy accountId st)) in *.
  assert (Hc : cooling_locally st1 accountId
                 (fst (Date_now (Traced.inner (world st1)))) = true).
  { unfold cooling_locally. rewrite Hcache, lookup_insert_eq.
    apply Z.ltb_lt. exact Hstill. }
  split.
  - rewrite (isAccountHealthy_spec accountId st1 _ _ (traced_now (world st1))), Hc.
    reflexivity.
  - rewrite isAccountHealthy_trace, Hc. reflexivity.
Qed.
End TrackerTraffic.

(* ================================================================== *)
(** ** More on the rotator *)
(* ================================================================== *)

Section MoreManagerFacts.
Context {W : Type} `{Host W}.
Variable accounts : list AuthManager.
Implicit Types (st : State W).
Local Abbreviation N := (Z.of_nat (length accounts)).

(** The normalized cursor is an index of the array or [NaN]. *)
Lemma normalize_shape x :
  accounts <> [] ->
  normalize accounts x = NaN \/ in_range accounts (normalize accounts x).
Proof.
  intros Hne. destruct (normalize accounts x) as [| s | z] eqn:Hx.
  - left. reflexivity.
  - exfalso. unfold normalize, JS.length_of in Hx.
    destruct x as [| [] | a]; cbn in Hx;
      repeat match type of Hx with
             | context [if ?c then _ else _] => destruct c; cbn in Hx
             end; discriminate.
  - right. exists z. split; [reflexivity |].
    apply (normalize_in_range accounts x z Hne Hx).
Qed.

(** From a start index in the array, [getAccount()] returns an account
    of the pool. *)
Lemma getAccount_from_index st i st1 :
  startIndex accounts st = (Normal i, st1) ->
  in_range accounts i ->
  exists account st',
    getAccount accounts st = (Normal (Some account), st')
    /\ account ∈ accounts.
Proof.
  rewrite startIndex_cases. intros [= <- <-] Hr.
  assert (Hlen : length accounts <> O).
  { destruct Hr as (z & _ & Hz). lia. }
  unfold getAccount.
  destruct (Nat.eqb_spec (length accounts) 0) as [| _]; [congruence |].
  unfold bind. rewrite startIndex_cases.
  apply scan_in_bounds; exact Hr.
Qed.

Lemma getAccount_Normal_in_pool st r st' :
  getAccount accounts st = (Normal r, st') ->
  exists account, r = Some account /\ account ∈ accounts.
Proof.
  intros Hcall.
  assert (Hne : accounts <> []).
  { intros Hnil. unfold getAccount in Hcall. rewrite Hnil in Hcall. discriminate. }
  pose proof (startIndex_cases accounts st) as Hstart.
  set (x := match _ with Normal (Some kvIndex) => _ | _ => _ end) in Hstart.
  destruct (normalize_shape x Hne) as [Hnan | Hr].
  - exfalso.
    assert (Hthrow : exists e st2, getAccount accounts st = (Throw e, st2)).
    { apply getAccount_throws_iff. right. rewrite Hstart, Hnan. reflexivity. }
    destruct Hthrow as (e & st2 & Hthrow). congruence.
  - destruct (getAccount_from_index st _ _ Hstart Hr)
      as (account & st2 & Hget & Hin).
    rewrite Hget in Hcall. injection Hcall as <- <-. eauto.
Qed.

(** X13. [getAccount()] never returns [undefined]: it throws, or it returns
    an account of the pool. *)
Theorem getAccount_returns_pool_member st :
  (exists e, fst (getAccount accounts st) = Throw e)
  \/ (exists account,
        fst (getAccount accounts st) = Normal (Some account)
        /\ account ∈ accounts).
Proof.
  destruct (getAccount accounts st) as [[r | e] st'] eqn:Hcall.
  - right. destruct (getAccount_Normal_in_pool _ _ _ Hcall) as (a & -> & Hin).
    eauto.
  - left. eauto.
Qed.
End MoreManagerFacts.

(** X14. With a single account configured, [getAccount()] returns that
    account whenever the start index is a number, whether the account is
    cooling down or not and wherever the stored cursor points. *)
Theorem single_account_always_served {W : Type} `{Host W}
    (account : AuthManager) (st : State W) :
  fst (startIndex [account] st) <> Normal NaN ->
  fst (getAccount [account] st) = Normal (Some account).
Proof.
  intros Hstart.
  pose proof (startIndex_cases [account] st) as Hcases.
  set (x := match _ with Normal (Some kvIndex) => _ | _ => _ end) in Hcases.
  destruct (normalize_shape [account] x ltac:(discriminate)) as [Hnan | Hr].
  - exfalso. apply Hstart. rewrite Hcases, Hnan. reflexivity.
  - destruct (getAccount_from_index [account] st _ _ Hcases Hr)
      as (a & st2 & Hget & Hin).
    rewrite Hget. apply list_elem_of_singleton in Hin. subst a. reflexivity.
Qed.

(* ================================================================== *)
(** ** What the rotator asks of the store *)
(* ================================================================== *)

Section RotatorTraffic.
Context {W : Type} `{Host W}.
Variable accounts : list AuthManager.
Implicit Types (st : State (Traced.t W)) (cur start : number).
Local Open Scope list_scope.
Local Abbreviation N := (Z.of_nat (length accounts)).

Lemma isAccountHealthy_checks accountId st :
  exists checks,
    trace (snd (isAccountHealthy accountId st)) = trace st ++ checks
    /\ Forall (fun e => is_health_check e = true) checks
    /\ clock_readings checks = [fst (Date_now (Traced.inner (world st)))].
Proof.
  eexists. split; [apply isAccountHealthy_trace |].
  destruct (cooling_locally st accountId _); split;
    repeat constructor.
Qed.

Lemma startIndex_trace st :
  trace (snd (startIndex accounts st))
  = trace st ++ [EvGet rotation_key
                   (fst (KV_get rotation_key (Traced.inner (world st))))]
  /\ localHealth (snd (startIndex accounts st)) = localHealth st.
Proof.
  rewrite startIndex_cases. cbn [snd localHealth]. split; [| reflexivity].
  rewrite traced_get. reflexivity.
Qed.

(** The calls of the scan: health checks, and after them at most the write
    of the cursor that points just past the account returned. *)
Lemma scan_traffic start remaining :
  forall cur st account st',
    scan accounts start remaining cur st = (Normal (Some account), st') ->
    exists checks tail,
      trace st' = trace st ++ checks ++ tail
      /\ Forall (fun e => is_health_check e = true) checks
      /\ (tail = []
          \/ exists z out,
               0 <= z < N
               /\ accounts !! Z.to_nat z = Some account
               /\ tail = [EvPut rotation_key
                            (JS.toString (Fin ((z + 1) mod N))) out]).
Proof.
  induction remaining as [| remaining IH]; intros cur st account st' Hscan.
  - cbn in Hscan. injection Hscan as _ <-.
    exists [], []. rewrite !app_nil_r. auto.
  - destruct (JS.index accounts cur) as [candidate |] eqn:Hidx.
    2: { cbn [scan] in Hscan. rewrite Hidx in Hscan. discriminate. }
    destruct (index_Some_in_range accounts _ _ Hidx) as (z & -> & Hz).
    destruct (isAccountHealthy_returns (id candidate) st) as (b & st1 & Hcall).
    destruct (isAccountHealthy_checks (id candidate) st) as (checks & Htr & Hchecks & _).
    rewrite Hcall in Htr. cbn [snd] in Htr.
    destruct b.
    + rewrite (scan_selects accounts _ _ _ _ _ _ Hidx Hcall) in Hscan.
      injection Hscan as <- <-.
      exists checks,
        [EvPut rotation_key (JS.toString (next accounts (Fin z)))
           (fst (KV_put rotation_key (JS.toString (next accounts (Fin z)))
                   (Traced.inner (world st1))))].
      split; [| split; [exact Hchecks |]].
      * unfold trace at 1. cbn [world]. unfold Traced.put.
        destruct (KV_put _ _ (Traced.inner (world st1))) as [out w2].
        cbn [fst snd Traced.log].
        fold (trace st1). rewrite Htr, <- app_assoc. reflexivity.
      * right. eexists z, _. split; [exact Hz |]. split.
        -- cbn in Hidx. destruct (0 <=? z); [exact Hidx | discriminate].
        -- rewrite next_Fin by exact Hz. reflexivity.
    + cbn [scan] in Hscan. rewrite Hidx in Hscan. unfold bind at 1 in Hscan.
      rewrite Hcall in Hscan.
      destruct (IH _ _ _ _ Hscan) as (checks' & tail & Htr' & Hchecks' & Htail).
      exists (checks ++ checks'), tail. split; [| split].
      * rewrite Htr', Htr, <- !app_assoc. reflexivity.
      * apply Forall_app. auto.
      * exact Htail.
Qed.

(** X15. A [getAccount()] call that returns an account reads the rotation
    cursor once, before anything else, then makes health checks, and writes
    to the store at most once, as its last call: the rotation cursor, set
    to the index just past the account it returns, modulo N. Read back by
    a later call, that cursor gives this index again. *)
Theorem getAccount_store_traffic st account st' :
  N < 2 ^ 32 ->
  getAccount accounts st = (Normal (Some account), st') ->
  exists r checks tail,
    trace st' = trace st ++ EvGet rotation_key r :: checks ++ tail
    /\ Forall (fun e => is_health_check e = true) checks
    /\ (tail = []
        \/ exists z value out,
             tail = [EvPut rotation_key value out]
             /\ 0 <= z < N
             /\ accounts !! Z.to_nat z = Some account
             /\ value = JS.toString (Fin ((z + 1) mod N))
             /\ normalize accounts (JS.parseInt value) = Fin ((z + 1) mod N)).
Proof.
  intros Hfits Hcall. unfold getAccount in Hcall.
  destruct (Nat.eqb_spec (length accounts) 0) as [| Hlen]; [discriminate |].
  assert (Hne : accounts <> []) by (intros ->; apply Hlen; reflexivity).
  unfold bind in Hcall.
  destruct (startIndex_trace st) as [Htr0 Hl0].
  destruct (startIndex accounts st) as [[i | e] st1] eqn:Hstart;
    [| rewrite startIndex_cases in Hstart; discriminate].
  cbn [snd] in Htr0.
  destruct (scan_traffic _ _ _ _ _ _ Hcall) as (checks & tail & Htr & Hchecks & Htail).
  eexists _, checks, tail. split; [| split; [exact Hchecks |]].
  - rewrite Htr, Htr0, <- app_assoc. reflexivity.
  - destruct Htail as [-> | (z & out & Hz & Ha & ->)]; [left; reflexivity |].
    right. exists z, (JS.toString (Fin ((z + 1) mod N))), out.
    assert (Hm : 0 <= (z + 1) mod N < N) by (apply Z.mod_pos_bound; lia).
    repeat split; try assumption; try lia.
    rewrite JSFacts.parseInt_toString.
    + rewrite normalize_Fin by exact Hne.
      destruct (Z.ltb_spec ((z + 1) mod N) 0); [lia |].
      rewrite Z.mod_mod by lia. reflexivity.
    + assert (2 ^ 32 < 2 ^ 53) by reflexivity. lia.
Qed.

Lemma skipped_traffic k :
  forall cur st cur' st',
    skipped accounts k cur st = Some (cur', st') ->
    exists checks,
      trace st' = trace st ++ checks
      /\ Forall (fun e => is_health_check e = true) checks.
Proof.
  induction k as [| k IH]; intros cur st cur' st' Hskip.
  - cbn in Hskip. injection Hskip as _ <-. exists []. rewrite app_nil_r. auto.
  - cbn [skipped] in Hskip.
    destruct (JS.index accounts cur) as [candidate |]; [| discriminate].
    destruct (isAccountHealthy_checks (id candidate) st) as (checks & Htr & Hchecks & _).
    destruct (isAccountHealthy (id candidate) st) as [[[] | e] st1];
      try discriminate.
    cbn [snd] in Htr.
    destruct (IH _ _ _ _ Hskip) as (checks' & Htr' & Hchecks').
    exists (checks ++ checks'). split.
    + rewrite Htr', Htr, <- app_assoc. reflexivity.
    + apply Forall_app. auto.
Qed.

(** X16. When every candidate of the scan is found unhealthy,
    [getAccount()] does not write to the store: the rotation cursor stays
    where it was, and the next call starts from the same index. *)
Theorem all_unhealthy_keeps_cursor st i st1 cur st2 :
  accounts <> [] ->
  startIndex accounts st = (Normal i, st1) ->
  skipped accounts (length accounts) i st1 = Some (cur, st2) ->
  snd (getAccount accounts st) = st2
  /\ exists r checks,
       trace st2 = trace st ++ EvGet rotation_key r :: checks
       /\ Forall (fun e => is_health_check e = true) checks.
Proof.
  intros Hne Hstart Hskip. split.
  - unfold getAccount.
    destruct (Nat.eqb_spec (length accounts) 0) as [Hlen | _].
    + apply nil_length_inv in Hlen. contradiction.
    + unfold bind. rewrite Hstart.
      rewrite <- (Nat.add_0_r (length accounts)) at 1.
      rewrite (scan_skipped accounts _ _ _ _ _ _ _ Hskip). reflexivity.
  - destruct (startIndex_trace st) as [Htr0 _]. rewrite Hstart in Htr0.
    cbn [snd] in Htr0.
    destruct (skipped_traffic _ _ _ _ _ Hskip) as (checks & Htr & Hchecks).
    eexists _, checks. split; [| exact Hchecks].
    rewrite Htr, Htr0, <- app_assoc. reflexivity.
Qed.

Lemma clock_readings_app (a b : list Event) :
  clock_readings (a ++ b) = clock_readings a ++ clock_readings b.
Proof. apply omap_app. Qed.

(** A scan that returns an account whose local record is cooling down at
    every clock reading of the scan has found every candidate unhealthy. *)
Lemma scan_cooling accountId T start remaining :
  forall cur st account st' calls,
    (exists localStatus,
       localHealth st !! accountId = Some localStatus
       /\ cooldownEnds localStatus = T) ->
    scan accounts start remaining cur st = (Normal (Some account), st') ->
    id account = accountId ->
    trace st' = trace st ++ calls ->
    Forall (fun now => now < T) (clock_readings calls) ->
    JS.index accounts start = Some account
    /\ exists cur', skipped accounts remaining cur st = Some (cur', st').
Proof.
  induction remaining as [| remaining IH];
    intros cur st account st' calls Hrec Hscan Hid Htr Hclock.
  - cbn in Hscan. injection Hscan as Hidx <-. cbn. eauto.
  - destruct (JS.index accounts cur) as [candidate |] eqn:Hidx.
    2: { cbn [scan] in Hscan. rewrite Hidx in Hscan. discriminate. }
    destruct (isAccountHealthy_returns (id candidate) st) as (b & st1 & Hcall).
    destruct (isAccountHealthy_checks (id candidate) st)
      as (checks & Htr1 & _ & Hnow).
    rewrite Hcall in Htr1. cbn [snd] in Htr1.
    set (now := fst (Date_now (Traced.inner (world st)))) in *.
    (* the rest of the scan only appends to the log *)
    assert (Hrest : exists rest, trace st' = trace st1 ++ rest).
    { destruct b.
      - rewrite (scan_selects accounts _ _ _ _ _ _ Hidx Hcall) in Hscan.
        injection Hscan as _ <-. unfold trace. cbn [world]. unfold Traced.put.
        destruct (KV_put _ _ (Traced.inner (world st1))) as [out w2].
        cbn [snd Traced.log]. eauto.
      - cbn [scan] in Hscan. rewrite Hidx in Hscan. unfold bind at 1 in Hscan.
        rewrite Hcall in Hscan.
        destruct (scan_traffic _ _ _ _ _ _ Hscan) as (c & t & Ht & _).
        eauto. }
    destruct Hrest as [rest Hrest].
    assert (Hcalls : calls = checks ++ rest).
    { rewrite Hrest, Htr1, <- app_assoc in Htr. apply app_inv_head in Htr.
      congruence. }
    subst calls. rewrite clock_readings_app, Hnow in Hclock.
    apply Forall_app in Hclock as [Hfirst Hlater].
    apply Forall_inv in Hfirst.
    destruct Hrec as (localStatus & Hl & HT).
    (* the record of the account survives this health check *)
    assert (Hkeep : localHealth st1 !! accountId = Some localStatus
                    /\ (id candidate = accountId -> b = false)).
    { destruct (decide (id candidate = accountId)) as [Heq | Hne].
      - assert (Hc : cooling_locally st accountId now = true).
        { unfold cooling_locally. rewrite Hl, HT. apply Z.ltb_lt. exact Hfirst. }
        rewrite Heq in Hcall.
        rewrite (isAccountHealthy_spec accountId st _ _ (traced_now (world st)))
          in Hcall.
        fold now in Hcall. rewrite Hc in Hcall.
        injection Hcall as <- <-. auto.
      - split; [| contradiction].
        pose proof (isAccountHealthy_other (id candidate) accountId st Hne) as Ho.
        rewrite Hcall in Ho. cbn [snd] in Ho. rewrite Ho. exact Hl. }
    destruct Hkeep as [Hl1 Hfalse].
    destruct b.
    + rewrite (scan_selects accounts _ _ _ _ _ _ Hidx Hcall) in Hscan.
      injection Hscan as Hacc _. subst candidate.
      specialize (Hfalse Hid). discriminate.
    + cbn [scan] in Hscan. rewrite Hidx in Hscan. unfold bind at 1 in Hscan.
      rewrite Hcall in Hscan.
      destruct (IH _ _ _ _ rest (ex_intro _ localStatus (conj Hl1 HT))
                  Hscan Hid Hrest Hlater) as (Hstart & cur' & Hskip).
      split; [exact Hstart |]. exists cur'.
      cbn [skipped]. rewrite Hidx, Hcall. exact Hskip.
Qed.

(** X17. An account whose local record is cooling down at every clock
    reading of a [getAccount()] call is not handed out by that call as a
    healthy account: if the call returns it, the scan has found all N
    candidates unhealthy and the account is the one at the start index. *)
Theorem cooling_account_not_selected st accountId localStatus account st' calls :
  localHealth st !! accountId = Some localStatus ->
  getAccount accounts st = (Normal (Some account), st') ->
  id account = accountId ->
  trace st' = trace st ++ calls ->
  Forall (fun now => now < cooldownEnds localStatus) (clock_readings calls) ->
  exists i st1 cur,
    startIndex accounts st = (Normal i, st1)
    /\ JS.index accounts i = Some account
    /\ skipped accounts (length accounts) i st1 = Some (cur, st').
Proof.
  intros Hl Hcall Hid Htr Hclock. unfold getAccount in Hcall.
  destruct (Nat.eqb (length accounts) 0); [discriminate |].
  unfold bind in Hcall.
  destruct (startIndex_trace st) as [Htr0 Hl0].
  destruct (startIndex accounts st) as [[i | e] st1] eqn:Hstart;
    [| discriminate].
  cbn [snd] in Htr0, Hl0.
  destruct (scan_traffic _ _ _ _ _ _ Hcall) as (c & t & Ht & _).
  assert (Hcalls : calls = [EvGet rotation_key
                              (fst (KV_get rotation_key (Traced.inner (world st))))]
                           ++ (c ++ t)).
  { rewrite Ht, Htr0, <- app_assoc in Htr. apply app_inv_head in Htr.
    congruence. }
  subst calls. rewrite clock_readings_app in Hclock.
  apply Forall_app in Hclock as [_ Hclock].
  destruct (scan_cooling accountId (cooldownEnds localStatus) i (length accounts)
              i st1 account st' (c ++ t)) as (Hidx & cur & Hskip); auto.
  - exists localStatus. rewrite Hl0. auto.
  - exists i, st1, cur. auto.
Qed.
End RotatorTraffic.

(* ================================================================== *)
(** ** The constructor *)
(* ================================================================== *)

Section ConstructorFacts.
Variable JSON_parse : string -> option string.
Variable env : Env.
Local Open Scope list_scope.

Lemma truthy_Some (s : option string) :
  truthy s = true -> exists text, s = Some text /\ text <> "" /\ default "" s = text.
Proof.
  destruct s as [[| c rest] |]; cbn; try discriminate.
  intros _. eexists. split; [reflexivity |]. split; [discriminate | reflexivity].
Qed.

(** As many numbered variables as there are indices below [n] cannot all
    be set unless [env] has that many variables. *)
Lemma present_keys_bounded (n : nat) :
  (forall j, 0 <= j < Z.of_nat n -> truthy (env !! numbered_key j) = true) ->
  (n <= size env)%nat.
Proof.
  intros Hset.
  set (keys := (fun j : nat => numbered_key (Z.of_nat j)) <$> seq 0 n).
  assert (Hnodup : NoDup keys).
  { apply NoDup_fmap_2_strong; [| apply NoDup_seq].
    intros a b _ _ Heq. apply KeyFacts.numbered_key_inj in Heq. lia. }
  assert (Hsub : (list_to_set keys : gset string) ⊆ dom env).
  { intros k Hk. apply elem_of_list_to_set in Hk.
    apply list_elem_of_fmap in Hk as (j & -> & Hj).
    apply elem_of_seq in Hj.
    destruct (truthy_Some _ (Hset (Z.of_nat j) ltac:(lia))) as (text & Htext & _).
    apply elem_of_dom. rewrite Htext. eauto. }
  apply subseteq_size in Hsub.
  rewrite size_list_to_set, size_dom in Hsub by exact Hnodup.
  unfold keys in Hsub. rewrite length_fmap, length_seq in Hsub. exact Hsub.
Qed.

Lemma load_numbered_None fuel :
  forall index accounts,
    load_numbered JSON_parse env fuel index accounts = None ->
    forall j, index <= j < index + Z.of_nat fuel ->
              truthy (env !! numbered_key j) = true.
Proof.
  induction fuel as [| fuel IH]; intros index accounts Hload j Hj; [lia |].
  cbn [load_numbered] in Hload.
  destruct (truthy (env !! numbered_key index)) eqn:Hset; [| discriminate].
  destruct (Z.eq_dec j index) as [-> | Hne]; [exact Hset |].
  apply (IH _ _ Hload). lia.
Qed.

(** What the loop leaves: the accounts of the numbered variables from
    [index] up to the first one that is missing or empty. *)
Lemma load_numbered_Some fuel :
  forall index accounts loaded,
    load_numbered JSON_parse env fuel index accounts = Some loaded ->
    exists gap,
      index <= gap
      /\ truthy (env !! numbered_key gap) = false
      /\ (forall j, index <= j < gap -> truthy (env !! numbered_key j) = true)
      /\ loaded = accounts
                  ++ omap (numbered_account JSON_parse env) (seqZ index (gap - index)).
Proof.
  induction fuel as [| fuel IH]; intros index accounts loaded Hload;
    [discriminate |].
  cbn [load_numbered] in Hload.
  destruct (truthy (env !! numbered_key index)) eqn:Hset.
  - destruct (IH _ _ _ Hload) as (gap & Hle & Hgap & Hbelow & ->).
    exists gap. split; [lia |]. split; [exact Hgap |]. split.
    + intros j Hj. destruct (Z.eq_dec j index) as [-> | Hne]; [exact Hset |].
      apply Hbelow. lia.
    + rewrite (seqZ_cons index (gap - index)) by lia. cbn [omap list_omap].
      replace (Z.pred (gap - index)) with (gap - (index + 1)) by lia.
      replace (Z.succ index) with (index + 1) by lia.
      unfold try_addAccount, numbered_account, addAccount.
      destruct (JSON_parse (default "" (env !! numbered_key index)));
        cbn; [rewrite <- app_assoc |]; reflexivity.
  - injection Hload as <-. exists index. split; [lia |]. split; [exact Hset |].
    split; [intros j Hj; lia |].
    rewrite Z.sub_diag. cbn. rewrite app_nil_r. reflexivity.
Qed.

(** X18. The [while (true)] loop of [initializeAccounts] ends for every
    [env]: at the first index [gap] whose numbered variable is missing or
    empty. The pool is then made of the numbered variables below [gap]
    whose text parses, in the order of their indices and with the index as
    [id], and the legacy step is applied to it. *)
Theorem initializeAccounts_loads :
  exists gap,
    0 <= gap
    /\ truthy (env !! numbered_key gap) = false
    /\ (forall j, 0 <= j < gap -> truthy (env !! numbered_key j) = true)
    /\ initializeAccounts JSON_parse env
       = Some (load_legacy JSON_parse env (numbered_accounts JSON_parse env gap)).
Proof.
  unfold initializeAccounts.
  destruct (load_numbered JSON_parse env (S (size env)) 0 []) as [loaded |] eqn:Hload.
  - destruct (load_numbered_Some _ _ _ _ Hload) as (gap & Hle & Hgap & Hbelow & ->).
    exists gap. rewrite Z.sub_0_r. cbn. auto.
  - exfalso.
    pose proof (present_keys_bounded (S (size env))) as Hbound.
    assert (S (size env) <= size env)%nat; [| lia].
    apply Hbound. intros j Hj. apply (load_numbered_None _ _ _ Hload). lia.
Qed.

Lemma initializeAccounts_Some accounts :
  initializeAccounts JSON_parse env = Some accounts ->
  exists gap,
    0 <= gap
    /\ truthy (env !! numbered_key gap) = false
    /\ (forall j, 0 <= j < gap -> truthy (env !! numbered_key j) = true)
    /\ accounts = load_legacy JSON_parse env (numbered_accounts JSON_parse env gap).
Proof.
  unfold initializeAccounts. intros Hinit.
  destruct (load_numbered JSON_parse env (S (size env)) 0 []) as [loaded |] eqn:Hload;
    [| discriminate].
  destruct (load_numbered_Some _ _ _ _ Hload) as (gap & Hle & Hgap & Hbelow & ->).
  injection Hinit as <-. exists gap. rewrite Z.sub_0_r. cbn. auto.
Qed.

Lemma load_legacy_cases (accounts : list AuthManager) :
  load_legacy JSON_parse env accounts
  = match accounts with
    | [] => legacy_accounts JSON_parse env
    | _ => accounts
    end.
Proof.
  unfold load_legacy, legacy_accounts, try_addAccount, addAccount.
  destruct accounts as [| a l]; [| reflexivity]. cbn.
  destruct (env !! legacy_key) as [[| c rest] |]; reflexivity.
Qed.

Lemma numbered_account_Some index account :
  numbered_account JSON_parse env index = Some account ->
  id account = index
  /\ JSON_parse (default "" (env !! numbered_key index)) = Some (credentials account).
Proof.
  unfold numbered_account.
  destruct (JSON_parse (default "" (env !! numbered_key index))) as [c |];
    cbn; [| discriminate].
  intros [= <-]. auto.
Qed.

Lemma numbered_elem m n account :
  account ∈ omap (numbered_account JSON_parse env) (seqZ m n) ->
  m <= id account < m + n
  /\ JSON_parse (default "" (env !! numbered_key (id account)))
     = Some (credentials account).
Proof.
  intros Hin. apply list_elem_of_omap in Hin as (j & Hj & Hacc).
  apply elem_of_seqZ in Hj.
  apply numbered_account_Some in Hacc as [<- Hparse]. auto.
Qed.

Lemma numbered_sorted (k : nat) :
  forall m,
    StronglySorted (fun a b => id a < id b)
      (omap (numbered_account JSON_parse env) (seqZ m (Z.of_nat k))).
Proof.
  induction k as [| k IH]; intros m; [constructor |].
  rewrite seqZ_cons by lia. cbn [omap list_omap].
  replace (Z.pred (Z.of_nat (S k))) with (Z.of_nat k) by lia.
  destruct (numbered_account JSON_parse env m) as [account |] eqn:Hacc;
    [| apply IH].
  constructor; [apply IH |].
  apply Forall_forall. intros b Hb. apply numbered_elem in Hb as [Hb _].
  apply numbered_account_Some in Hacc as [-> _]. lia.
Qed.

Lemma legacy_elem account :
  account ∈ legacy_accounts JSON_parse env ->
  id account = 0
  /\ legacy_accounts JSON_parse env = [account]
  /\ exists text, env !! legacy_key = Some text /\ text <> ""
                  /\ JSON_parse text = Some (credentials account).
Proof.
  unfold legacy_accounts. intros Hin.
  destruct (env !! legacy_key) as [[| c rest] |]; try (inversion Hin; fail).
  destruct (JSON_parse (String c rest)) as [cr |] eqn:Hparse;
    [| inversion Hin].
  apply list_elem_of_singleton in Hin. subst account.
  split; [reflexivity |]. split; [reflexivity |].
  eexists. split; [reflexivity |]. split; [discriminate | exact Hparse].
Qed.

(** X19. The ids of the accounts that the constructor loads increase
    strictly along the pool: no two accounts of a pool share an id, and so
    none share a health record. *)
Theorem initializeAccounts_ids_increase accounts :
  initializeAccounts JSON_parse env = Some accounts ->
  StronglySorted (fun a b => id a < id b) accounts.
Proof.
  intros Hinit.
  destruct (initializeAccounts_Some _ Hinit) as (gap & Hgap & _ & _ & ->).
  rewrite load_legacy_cases. unfold numbered_accounts.
  destruct (omap _ (seqZ 0 gap)) as [| a l] eqn:Hnum.
  - unfold legacy_accounts.
    destruct (env !! legacy_key) as [[| c rest] |]; try constructor.
    destruct (JSON_parse (String c rest)); repeat constructor.
  - rewrite <- Hnum. rewrite <- (Z2Nat.id gap) by exact Hgap.
    apply numbered_sorted.
Qed.

(** X20. Every account of the pool comes from a variable of [env] that is
    set, not empty, and parses to the account's credentials: the numbered
    variable that carries the account's id, or the legacy variable for an
    account that is then alone in the pool and has id 0. *)
Theorem initializeAccounts_provenance accounts account :
  initializeAccounts JSON_parse env = Some accounts ->
  account ∈ accounts ->
  exists key text,
    (key = numbered_key (id account)
     \/ (key = legacy_key /\ id account = 0 /\ accounts = [account]))
    /\ env !! key = Some text
    /\ text <> ""
    /\ JSON_parse text = Some (credentials account).
Proof.
  intros Hinit Hin.
  destruct (initializeAccounts_Some _ Hinit) as (gap & Hgap & _ & Hbelow & ->).
  rewrite load_legacy_cases in *. unfold numbered_accounts in *.
  destruct (omap _ (seqZ 0 gap)) as [| a l] eqn:Hnum.
  - destruct (legacy_elem _ Hin) as (Hid & Hone & text & Henv & Htext & Hparse).
    exists legacy_key, text. auto 10.
  - rewrite <- Hnum in Hin. apply numbered_elem in Hin as [Hrange Hparse].
    destruct (truthy_Some _ (Hbelow (id account) ltac:(lia)))
      as (text & Henv & Htext & Hdef).
    exists (numbered_key (id account)), text. rewrite Hdef in Hparse. auto.
Qed.

(** X21. The constructor stops at the first gap: when the numbered variable
    of an index [k >= 1] is missing or empty, every account of the pool has
    an id below [k], whatever variables are set above [k]. *)
Theorem initializeAccounts_stops_at_gap accounts k account :
  initializeAccounts JSON_parse env = Some accounts ->
  0 < k ->
  truthy (env !! numbered_key k) = false ->
  account ∈ accounts ->
  0 <= id account < k.
Proof.
  intros Hinit Hk Hunset Hin.
  destruct (initializeAccounts_Some _ Hinit) as (gap & Hgap & _ & Hbelow & ->).
  assert (Hle : gap <= k).
  { destruct (Z.le_gt_cases gap k) as [| Hlt]; [assumption |].
    rewrite (Hbelow k) in Hunset by lia. discriminate. }
  rewrite load_legacy_cases in Hin. unfold numbered_accounts in Hin.
  destruct (omap _ (seqZ 0 gap)) as [| a l] eqn:Hnum.
  - destruct (legacy_elem _ Hin) as (Hid & _). lia.
  - rewrite <- Hnum in Hin. apply numbered_elem in Hin as [Hrange _]. lia.
Qed.

(** X22. The legacy variable is the fallback only: without a first
    numbered variable the pool is what [GCP_SERVICE_ACCOUNT] alone gives
    (one account with id 0, or none when it is missing, empty or does not
    parse); and once the first numbered variable is set and parses, the
    pool starts with its account and no account comes from the legacy
    variable. *)
Theorem initializeAccounts_legacy :
  (truthy (env !! numbered_key 0) = false ->
   initializeAccounts JSON_parse env = Some (legacy_accounts JSON_parse env))
  /\ (forall text credentials,
        env !! numbered_key 0 = Some text -> text <> "" ->
        JSON_parse text = Some credentials ->
        exists gap,
          initializeAccounts JSON_parse env
          = Some (numbered_accounts JSON_parse env gap)
          /\ head (numbered_accounts JSON_parse env gap)
             = Some (mkAuthManager 0 credentials)).
Proof.
  destruct (load_numbered JSON_parse env (S (size env)) 0 []) as [loaded |] eqn:Hload.
  2: { exfalso. pose proof (present_keys_bounded (S (size env))) as Hbound.
       assert (S (size env) <= size env)%nat; [| lia].
       apply Hbound. intros j Hj. apply (load_numbered_None _ _ _ Hload). lia. }
  assert (Hinit : initializeAccounts JSON_parse env
                  = Some (load_legacy JSON_parse env loaded)).
  { unfold initializeAccounts. rewrite Hload. reflexivity. }
  destruct (load_numbered_Some _ _ _ _ Hload) as (gap & Hgap & Hunset & Hbelow & ->).
  rewrite Z.sub_0_r in Hinit. cbn [app] in Hinit.
  fold (numbered_accounts JSON_parse env gap) in Hinit.
  split.
  - intros Hfirst.
    assert (gap = 0).
    { destruct (Z.eq_dec gap 0) as [| Hne]; [assumption |].
      rewrite (Hbelow 0) in Hfirst by lia. discriminate. }
    subst gap. rewrite Hinit, load_legacy_cases. reflexivity.
  - intros text credentials Henv Htext Hparse.
    assert (Hpos : 0 < gap).
    { destruct (Z.eq_dec gap 0) as [-> | Hne]; [| lia].
      rewrite Henv in Hunset. destruct text; [congruence | discriminate]. }
    assert (Hhead : head (numbered_accounts JSON_parse env gap)
                    = Some (mkAuthManager 0 credentials)).
    { unfold numbered_accounts. rewrite seqZ_cons by lia. cbn [omap list_omap].
      unfold numbered_account at 1. rewrite Henv.
      change (default "" (Some text)) with text.
      rewrite Hparse. reflexivity. }
    exists gap. split; [| exact Hhead].
    rewrite Hinit, load_legacy_cases.
    destruct (numbered_accounts JSON_parse env gap); [discriminate | reflexivity].
Qed.
End ConstructorFacts.

(* ================================================================== *)
(** ** The version with a local cursor *)
(* ================================================================== *)

Section LocalCursorFacts.
Context {W : Type} `{Host W}.
Variable accounts : list AuthManager.
Implicit Types (st : State W) (cur start cursor : number).
Local Open Scope list_scope.
Local Abbreviation N := (Z.of_nat (length accounts)).

Lemma rotateIndex_next cursor :
  LocalCursor.rotateIndex accounts cursor = next accounts cursor.
Proof. reflexivity. Qed.

(** [k] unhealthy candidates in a row use up [k] iterations of the loop
    and rotate the cursor [k] times. *)
Lemma local_scan_skipped start k :
  forall remaining cur st cur' st',
    skipped accounts k cur st = Some (cur', st') ->
    LocalCursor.scan accounts start (k + remaining) cur st
    = LocalCursor.scan accounts start remaining cur' st'.
Proof.
  induction k as [| k IH]; intros remaining cur st cur' st' Hskip.
  - cbn in Hskip. injection Hskip as <- <-. reflexivity.
  - cbn [skipped] in Hskip. cbn [Nat.add LocalCursor.scan].
    destruct (JS.index accounts cur) as [account |]; [| discriminate].
    destruct (isAccountHealthy (id account) st) as [[[] | e] st1];
      try discriminate.
    rewrite rotateIndex_next. apply IH. exact Hskip.
Qed.

(** Where the scan stands after [k] unhealthy candidates. *)
Lemma skipped_index k :
  forall z st cur' st',
    0 <= z < N ->
    skipped accounts k (Fin z) st = Some (cur', st') ->
    cur' = Fin ((z + Z.of_nat k) mod N).
Proof.
  induction k as [| k IH]; intros z st cur' st' Hz Hskip.
  - cbn in Hskip. injection Hskip as <- _.
    rewrite Z.add_0_r, Z.mod_small by lia. reflexivity.
  - cbn [skipped] in Hskip.
    destruct (JS.index accounts (Fin z)) as [account |]; [| discriminate].
    destruct (isAccountHealthy (id account) st) as [[[] | e] st1];
      try discriminate.
    rewrite (next_Fin accounts z Hz) in Hskip.
    apply IH in Hskip; [| apply Z.mod_pos_bound; lia].
    rewrite Hskip. f_equal.
    rewrite Z.add_mod_idemp_l by lia. f_equal. lia.
Qed.

Lemma local_scan_in_range start remaining :
  forall cursor st,
    in_range accounts start -> in_range accounts cursor ->
    exists account cursor' st',
      LocalCursor.scan accounts start remaining cursor st
      = (Normal (Some account), cursor', st')
      /\ account ∈ accounts
      /\ in_range accounts cursor'.
Proof.
  induction remaining as [| remaining IH]; intros cursor st Hstart Hcur.
  - destruct (index_in_range accounts _ Hstart) as (account & Ha & Hin).
    exists account, cursor, st. cbn [LocalCursor.scan]. rewrite Ha. auto.
  - destruct (index_in_range accounts _ Hcur) as (account & Ha & Hin).
    cbn [LocalCursor.scan]. rewrite Ha.
    destruct (isAccountHealthy_returns (id account) st) as ([] & st1 & ->).
    + exists account, (LocalCursor.rotateIndex accounts cursor), st1.
      split; [reflexivity |]. split; [exact Hin |].
      apply next_in_range. exact Hcur.
    + apply IH; [exact Hstart | apply next_in_range; exact Hcur].
Qed.

(** X23. In the version with a local cursor, a cursor that is an index of
    a non-empty pool stays one: [getAccount()] then returns an account of
    the pool, never throws, and leaves a cursor that is again an index. *)
Theorem local_getAccount_in_range cursor st :
  accounts <> [] ->
  in_range accounts cursor ->
  exists account cursor' st',
    LocalCursor.getAccount accounts cursor st = (Normal (Some account), cursor', st')
    /\ account ∈ accounts
    /\ in_range accounts cursor'.
Proof.
  intros Hne Hcur. unfold LocalCursor.getAccount.
  destruct (Nat.eqb_spec (length accounts) 0) as [Hlen | _].
  - apply nil_length_inv in Hlen. contradiction.
  - apply local_scan_in_range; exact Hcur.
Qed.

(** X24. In the version with a local cursor, when all N candidates are
    found unhealthy, [getAccount()] returns the account the cursor pointed
    at, and the cursor, rotated N times, is back where it was. *)
Theorem local_all_unhealthy_full_circle cursor st cur st' :
  in_range accounts cursor ->
  skipped accounts (length accounts) cursor st = Some (cur, st') ->
  LocalCursor.getAccount accounts cursor st
  = (Normal (JS.index accounts cursor), cursor, st')
  /\ is_Some (JS.index accounts cursor).
Proof.
  intros (z & -> & Hz) Hskip.
  assert (Hcur : cur = Fin z).
  { rewrite (skipped_index _ _ _ _ _ Hz Hskip).
    rewrite <- (Z.mul_1_l N) at 1. rewrite Z.mod_add, Z.mod_small by lia.
    reflexivity. }
  subst cur. split.
  - unfold LocalCursor.getAccount.
    destruct (Nat.eqb_spec (length accounts) 0) as [| _]; [lia |].
    rewrite <- (Nat.add_0_r (length accounts)) at 1.
    rewrite (local_scan_skipped _ _ _ _ _ _ _ Hskip). reflexivity.
  - destruct (index_in_range accounts (Fin z)) as (account & -> & _); [| eauto].
    exists z. auto.
Qed.

Lemma local_scan_selects start remaining cursor st account st1 :
  remaining <> O ->
  JS.index accounts cursor = Some account ->
  isAccountHealthy (id account) st = (Normal true, st1) ->
  LocalCursor.scan accounts start remaining cursor st
  = (Normal (Some account), next accounts cursor, st1).
Proof.
  intros Hrem Hidx Hcall. destruct remaining as [| r]; [congruence |].
  cbn [LocalCursor.scan]. rewrite Hidx, Hcall. reflexivity.
Qed.

Section LocalFairness.
Variable Healthy : State W -> Prop.
Hypothesis pool_not_empty : accounts <> [].
Hypothesis all_healthy : forall st account,
  Healthy st -> account ∈ accounts ->
  exists st', isAccountHealthy (id account) st = (Normal true, st')
              /\ Healthy st'.

Lemma local_getAccount_fair_step (j : nat) st :
  Healthy st ->
  exists st',
    LocalCursor.getAccount accounts (Fin (Z.of_nat (j mod length accounts))) st
    = (Normal (accounts !! (j mod length accounts)%nat),
       Fin (Z.of_nat (S j mod length accounts)), st')
    /\ Healthy st'.
Proof.
  intros Hst.
  assert (Hlen : length accounts <> O) by (apply nonempty_length_nat, pool_not_empty).
  set (m := (j mod length accounts)%nat).
  assert (Hm : (m < length accounts)%nat) by (apply Nat.mod_upper_bound; exact Hlen).
  destruct (lookup_lt_is_Some_2 accounts m Hm) as [account Ha].
  assert (Hidx : JS.index accounts (Fin (Z.of_nat m)) = Some account).
  { cbn. destruct (Z.leb_spec 0 (Z.of_nat m)); [| lia].
    rewrite Nat2Z.id. exact Ha. }
  assert (Hin : account ∈ accounts) by (apply list_elem_of_lookup; eauto).
  destruct (all_healthy _ _ Hst Hin) as (st' & Hcall & Hst').
  exists st'. split; [| exact Hst'].
  unfold LocalCursor.getAccount.
  destruct (Nat.eqb_spec (length accounts) 0) as [| _]; [congruence |].
  rewrite (local_scan_selects _ _ _ _ _ _ Hlen Hidx Hcall), Ha.
  rewrite next_Fin by lia.
  do 3 f_equal. unfold m.
  rewrite !Nat2Z.inj_mod.
  rewrite Z.add_mod_idemp_l by lia.
  rewrite Nat2Z.inj_succ, <- Z.add_1_r. reflexivity.
Qed.

Lemma local_round_robin_from n :
  forall (j : nat) st,
    Healthy st ->
    LocalCursor.getAccount_times accounts n
      (Fin (Z.of_nat (j mod length accounts))) st
    = map (fun k => Normal (accounts !! (k mod length accounts)%nat)) (seq j n).
Proof.
  induction n as [| n IH]; intros j st Hst; [reflexivity |].
  cbn [LocalCursor.getAccount_times seq map].
  destruct (local_getAccount_fair_step j st Hst) as (st' & -> & Hst').
  f_equal. apply IH. exact Hst'.
Qed.

(** X25. One instance of the version with a local cursor, started at 0,
    on which [isAccountHealthy] answers [true] for every account of the
    pool, hands out the accounts in turn: call number [n] (from 0) returns
    the account at index [n mod N], whatever the store holds. *)
Theorem local_round_robin st0 n :
  Healthy st0 ->
  LocalCursor.getAccount_times accounts n (Fin 0) st0
  = map (fun k => Normal (accounts !! (k mod length accounts)%nat)) (seq 0 n).
Proof.
  intros Hst0.
  pose proof (local_round_robin_from n 0 st0 Hst0) as Hfair.
  rewrite Nat.Div0.mod_0_l in Hfair. exact Hfair.
Qed.
End LocalFairness.
End LocalCursorFacts.

Section LocalCursorTraffic.
Context {W : Type} `{Host W}.
Variable accounts : list AuthManager.
Implicit Types (st : State (Traced.t W)) (cursor start : number).
Local Open Scope list_scope.

Lemma local_scan_traffic start remaining :
  forall cursor st,
    exists checks,
      trace (snd (LocalCursor.scan accounts start remaining cursor st))
      = trace st ++ checks
      /\ Forall (fun e => is_health_check e = true) checks.
Proof.
  induction remaining as [| remaining IH]; intros cursor st.
  - exists []. rewrite app_nil_r. cbn. auto.
  - cbn [LocalCursor.scan].
    destruct (JS.index accounts cursor) as [account |].
    2: { exists []. rewrite app_nil_r. cbn. auto. }
    destruct (isAccountHealthy_checks (id account) st) as (checks & Htr & Hchecks & _).
    destruct (isAccountHealthy (id account) st) as [[[] | e] st1];
      cbn [snd] in *; eauto.
    destruct (IH (LocalCursor.rotateIndex accounts cursor) st1)
      as (checks' & Htr' & Hchecks').
    exists (checks ++ checks'). split.
    + rewrite Htr', Htr, <- app_assoc. reflexivity.
    + apply Forall_app. auto.
Qed.

(** X26. The version with a local cursor makes no call about the rotation
    cursor: all that a [getAccount()] call asks of its host are the clock
    readings and health-record reads of its health checks. It reads and
    writes nothing that another worker's rotation could see. *)
Theorem local_getAccount_store_traffic cursor st :
  exists checks,
    trace (snd (LocalCursor.getAccount accounts cursor st)) = trace st ++ checks
    /\ Forall (fun e => is_health_check e = true) checks.
Proof.
  unfold LocalCursor.getAccount.
  destruct (Nat.eqb (length accounts) 0).
  - exists []. rewrite app_nil_r. cbn. auto.
  - apply local_scan_traffic.
Qed.
End LocalCursorTraffic.

(* ================================================================== *)
(** ** POST /token-test *)
(* ================================================================== *)

Section TokenTestFacts.
Context {W : Type} `{Host W}.
Variable JSON_parse : string -> option string.
Variable initializeAuth : AuthManager -> M W unit.
Variable env : Env.

Lemma initializeAccounts_without_first :
  truthy (env !! numbered_key 0) = false ->
  initializeAccounts JSON_parse env = Some (legacy_accounts JSON_parse env).
Proof.
  intros Hfirst. unfold initializeAccounts. cbn [load_numbered].
  rewrite Hfirst. cbn. f_equal. apply load_legacy_cases.
Qed.

(** X27. With no usable account in [env] (no first numbered variable, and
    a legacy variable that is missing, empty or does not parse), the
    handler answers status 500 with the message of [getAccount()]'s
    error, and makes no call to its host. *)
Theorem tokenTest_without_accounts w :
  truthy (env !! numbered_key 0) = false ->
  legacy_accounts JSON_parse env = [] ->
  tokenTest JSON_parse initializeAuth env w
  = (mkJsonResponse 500 "error" "No service accounts configured", w).
Proof.
  intros Hfirst Hlegacy. unfold tokenTest.
  rewrite (initializeAccounts_without_first Hfirst), Hlegacy.
  reflexivity.
Qed.

(** X28. The handler answers status 200 only after [getAccount()] has
    returned an account of the pool built from [env] and
    [initializeAuth()] has completed for that account, called right after
    [getAccount()]; the message then names the id of that account. *)
Theorem tokenTest_ok_only_after_auth w :
  let accounts := default [] (initializeAccounts JSON_parse env) in
  res_code (fst (tokenTest JSON_parse initializeAuth env w)) = 200 ->
  exists account,
    account ∈ accounts
    /\ fst (getAccount accounts (mkState ∅ w)) = Normal (Some account)
    /\ fst (initializeAuth account (snd (getAccount accounts (mkState ∅ w))))
       = Normal tt
    /\ fst (tokenTest JSON_parse initializeAuth env w)
       = mkJsonResponse 200 "ok"
           (String.append "Token authentication successful for account "
              (JS.toString (Fin (id account)))).
Proof.
  intros accounts. unfold tokenTest. unfold_monad. fold accounts.
  destruct (getAccount accounts (mkState ∅ w)) as [[[account |] | e] st1] eqn:Hget;
    cbn [fst snd res_code]; try discriminate.
  destruct (initializeAuth account st1) as [[[] | e] st2] eqn:Hauth;
    cbn [fst snd res_code]; try discriminate.
  intros _. exists account.
  destruct (getAccount_Normal_in_pool accounts _ _ _ Hget) as (a & [= <-] & Hin).
  rewrite Hauth. auto.
Qed.
End TokenTestFacts.

(* ================================================================== *)
(** ** The further properties on concrete runs *)
(* ================================================================== *)

Section OnCases.
Import Scenario Cases.
Local Open Scope list_scope.

(** Witness of X1: a failure, a check and a success of account 1 leave
    account 2 alone. *)
Lemma tracker_calls_keep_other_accounts_witness :
  localHealth (snd (recordFailure 1 cooling_1)) !! 2 = localHealth cooling_1 !! 2
  /\ localHealth (snd (isAccountHealthy 1 cooling_1)) !! 2 = localHealth cooling_1 !! 2
  /\ localHealth (snd (recordSuccess 1 cooling_1)) !! 2 = localHealth cooling_1 !! 2.
Proof.
  apply (tracker_calls_keep_other_accounts 1 2 cooling_1). lia.
Defined.

(** Witness of X8: account 1 failed at 0s and is checked at 5s. *)
Lemma isAccountHealthy_fast_path_witness :
  fst (isAccountHealthy 1 (traced cooling_1)) = Normal false
  /\ localHealth (snd (isAccountHealthy 1 (traced cooling_1)))
     = localHealth (traced cooling_1)
  /\ trace (snd (isAccountHealthy 1 (traced cooling_1))) = [EvNow 5000].
Proof.
  refine (isAccountHealthy_fast_path 1 (traced cooling_1) (failed_at 0 1) _ _).
  - reflexivity.
  - vm_compute. reflexivity.
Defined.

(** Witness of X12: the store holds a failure of account 1 at 0s; a fresh
    worker checks the account at 5s and again at 6s. *)
Lemma adopted_cooldown_short_circuits_witness :
  fst (isAccountHealthy 1 (traced foreign_cooldown)) = Normal false
  /\ localHealth (snd (isAccountHealthy 1 (traced foreign_cooldown))) !! 1
     = Some (failed_at 0 1)
  /\ fst (isAccountHealthy 1 (snd (isAccountHealthy 1 (traced foreign_cooldown))))
     = Normal false
  /\ trace (snd (isAccountHealthy 1 (snd (isAccountHealthy 1 (traced foreign_cooldown)))))
     = [EvNow 5000;
        EvGetJson (health_key 1) (Normal (Some (failed_at 0 1)));
        EvNow 6000].
Proof.
  destruct (adopted_cooldown_short_circuits 1 (traced foreign_cooldown) (failed_at 0 1))
    as (Hfirst & Hlocal & Hnext).
  - reflexivity.
  - reflexivity.
  - vm_compute. reflexivity.
  - destruct Hnext as [Hsecond Htrace]; [vm_compute; reflexivity |].
    split; [exact Hfirst |]. split; [exact Hlocal |]. split; [exact Hsecond |].
    rewrite Htrace. reflexivity.
Defined.

(** Witness of X6: three failures of account 1, the last at 0s; a check
    and a success at 61s. *)
Lemma healthy_then_success_resets_witness :
  failureCount_of cooled_down 1 = 3
  /\ failureCount_of
       (snd (recordSuccess 1 (snd (isAccountHealthy 1 cooled_down)))) 1 = 0.
Proof.
  split; [reflexivity |].
  refine (healthy_then_success_resets 1 cooled_down
            (snd (isAccountHealthy 1 cooled_down)) _ _).
  - vm_compute. reflexivity.
  - vm_compute. discriminate.
Defined.

(** Witness of X10: a cooldown that ends at 60s, persisted at 59.5s, is
    written with a TTL of one second; persisted at 61s, it is not
    written. *)
Lemma persistHealthToKV_ttl_witness :
  trace (snd (persistHealthToKV 1 (failed_at 0 1) (traced at_59500)))
  = [EvNow 59500; EvPutJson (health_key 1) (failed_at 0 1) 1 (Normal tt)]
  /\ trace (snd (persistHealthToKV 1 (failed_at 0 1) (traced cooled_down)))
     = [EvNow 61000].
Proof.
  split.
  - destruct (proj2 (persistHealthToKV_ttl 1 (failed_at 0 1) (traced at_59500)))
      as (ttl & Httl & Htrace).
    + vm_compute. reflexivity.
    + change (1000 * (ttl - 1) < 500 <= 1000 * ttl) in Httl.
      assert (ttl = 1) as -> by lia.
      rewrite Htrace. reflexivity.
  - destruct (proj1 (persistHealthToKV_ttl 1 (failed_at 0 1) (traced cooled_down)))
      as [_ Htrace].
    + vm_compute. discriminate.
    + rewrite Htrace. reflexivity.
Defined.

(** Witness of X15: the first call on an empty store returns account 0 and
    sets the cursor to 1. *)
Lemma getAccount_store_traffic_witness :
  exists r checks tail,
    trace (snd (getAccount pool (traced quiet)))
    = trace (traced quiet) ++ EvGet rotation_key r :: checks ++ tail
    /\ Forall (fun e => is_health_check e = true) checks
    /\ (tail = []
        \/ exists z value out,
             tail = [EvPut rotation_key value out]
             /\ 0 <= z < 3
             /\ pool !! Z.to_nat z = Some A0
             /\ value = JS.toString (Fin ((z + 1) mod 3))
             /\ normalize pool (JS.parseInt value) = Fin ((z + 1) mod 3)).
Proof.
  refine (getAccount_store_traffic pool (traced quiet) A0
            (snd (getAccount pool (traced quiet))) _ _).
  - vm_compute. reflexivity.
  - vm_compute. reflexivity.
Defined.

(** Witness of X16: all three accounts cooling down, the cursor at 1. *)
Lemma all_unhealthy_keeps_cursor_witness :
  exists r checks,
    trace (snd (getAccount pool (traced saturated)))
    = EvGet rotation_key r :: checks
    /\ Forall (fun e => is_health_check e = true) checks.
Proof.
  destruct (all_unhealthy_keeps_cursor pool (traced saturated) (Fin 1)
              (snd (startIndex pool (traced saturated))) (Fin 1)
              (snd (default (NaN, traced saturated)
                      (skipped pool 3 (Fin 1)
                         (snd (startIndex pool (traced saturated)))))))
    as (Hend & r & checks & Htrace & Hchecks).
  - discriminate.
  - vm_compute. reflexivity.
  - vm_compute. reflexivity.
  - exists r, checks. rewrite Hend. split; [exact Htrace | exact Hchecks].
Defined.

(** Witness of X17: account 1 alone in the pool, cooling down locally. *)
Lemma cooling_account_not_selected_witness :
  exists i st1 cur,
    startIndex [A1] (traced cooling_1) = (Normal i, st1)
    /\ JS.index [A1] i = Some A1
    /\ skipped [A1] 1 i st1 = Some (cur, snd (getAccount [A1] (traced cooling_1))).
Proof.
  refine (cooling_account_not_selected [A1] (traced cooling_1) 1 (failed_at 0 1) A1
            (snd (getAccount [A1] (traced cooling_1)))
            (trace (snd (getAccount [A1] (traced cooling_1)))) _ _ _ _ _).
  - reflexivity.
  - vm_compute. reflexivity.
  - reflexivity.
  - reflexivity.
  - vm_compute. repeat constructor.
Defined.

(** Witness of X14: account 0 alone in the pool and cooling down in the
    store, the stored cursor at 1. *)
Lemma single_account_always_served_witness :
  fst (getAccount [A0] saturated) = Normal (Some A0).
Proof.
  apply (single_account_always_served A0 saturated).
  vm_compute. discriminate.
Defined.

(** Witness of X19: the variables 0, 1 and 3 give the accounts 0 and 1. *)
Lemma initializeAccounts_ids_increase_witness :
  StronglySorted (fun a b => id a < id b) [A0; A1].
Proof.
  apply (initializeAccounts_ids_increase parse env_gap [A0; A1]).
  vm_compute. reflexivity.
Defined.

(** Witness of X20: account 1 comes from its numbered variable. *)
Lemma initializeAccounts_provenance_witness :
  exists key text,
    (key = numbered_key (id A1)
     \/ (key = legacy_key /\ id A1 = 0 /\ [A0; A1] = [A1]))
    /\ env_gap !! key = Some text
    /\ text <> ""
    /\ parse text = Some (credentials A1).
Proof.
  apply (initializeAccounts_provenance parse env_gap [A0; A1] A1).
  - vm_compute. reflexivity.
  - set_solver.
Defined.

(** Witness of X21: variable 2 is missing, so variable 3 is never read. *)
Lemma initializeAccounts_stops_at_gap_witness :
  0 <= id A1 < 2.
Proof.
  apply (initializeAccounts_stops_at_gap parse env_gap [A0; A1] 2 A1).
  - vm_compute. reflexivity.
  - lia.
  - vm_compute. reflexivity.
  - set_solver.
Defined.

(** Witness of X22: the legacy variable alone gives one account with
    id 0; beside numbered variables it gives none. *)
Lemma initializeAccounts_legacy_witness :
  initializeAccounts parse env_legacy = Some [A0]
  /\ exists gap,
       initializeAccounts parse env_gap = Some (numbered_accounts parse env_gap gap)
       /\ head (numbered_accounts parse env_gap gap) = Some A0.
Proof.
  split.
  - rewrite (proj1 (initializeAccounts_legacy parse env_legacy)).
    + vm_compute. reflexivity.
    + vm_compute. reflexivity.
  - apply (proj2 (initializeAccounts_legacy parse env_gap) "credentials 0").
    + vm_compute. reflexivity.
    + discriminate.
    + reflexivity.
Defined.

(** Witness of X23: three accounts, the local cursor at 1. *)
Lemma local_getAccount_in_range_witness :
  exists account cursor' st',
    LocalCursor.getAccount pool (Fin 1) quiet = (Normal (Some account), cursor', st')
    /\ account ∈ pool
    /\ in_range pool cursor'.
Proof.
  apply (local_getAccount_in_range pool (Fin 1) quiet).
  - discriminate.
  - exists 1. split; [reflexivity | cbn; lia].
Defined.

(** Witness of X25: three accounts on an empty store that works. *)
Lemma local_round_robin_witness :
  LocalCursor.getAccount_times pool 4 (Fin 0) quiet
  = [Normal (Some A0); Normal (Some A1); Normal (Some A2); Normal (Some A0)].
Proof.
  refine (local_round_robin pool (fun st => Cursor st None) _ _ quiet 4 _).
  - discriminate.
  - intros st account. apply sim_all_healthy.
  - repeat split.
Defined.

(** Witness of X24: all three accounts cooling down, the local cursor
    at 1. *)
Lemma local_all_unhealthy_full_circle_witness :
  fst (LocalCursor.getAccount pool (Fin 1) saturated) = (Normal (Some A1), Fin 1).
Proof.
  destruct (local_all_unhealthy_full_circle pool (Fin 1) saturated (Fin 1)
              (snd (default (NaN, saturated) (skipped pool 3 (Fin 1) saturated))))
    as [Hcall _].
  - exists 1. split; [reflexivity | cbn; lia].
  - vm_compute. reflexivity.
  - rewrite Hcall. reflexivity.
Defined.

(** Witness of X27: the legacy variable alone, with a text that does not
    parse. *)
Lemma tokenTest_without_accounts_witness :
  tokenTest parse auth_ok env_broken (world quiet)
  = (mkJsonResponse 500 "error" "No service accounts configured", world quiet).
Proof.
  apply (tokenTest_without_accounts parse auth_ok env_broken (world quiet)).
  - vm_compute. reflexivity.
  - vm_compute. reflexivity.
Defined.

(** Witness of X28: two accounts configured, an empty store that works. *)
Lemma tokenTest_ok_only_after_auth_witness :
  fst (tokenTest parse auth_ok env_gap (world quiet))
  = mkJsonResponse 200 "ok" "Token authentication successful for account 0".
Proof.
  destruct (tokenTest_ok_only_after_auth parse auth_ok env_gap (world quiet))
    as (account & _ & Hget & _ & Hanswer).
  - vm_compute. reflexivity.
  - rewrite Hanswer.
    assert (Hfirst : fst (getAccount [A0; A1] (mkState ∅ (world quiet)))
                     = Normal (Some A0)) by (vm_compute; reflexivity).
    change (default [] (initializeAccounts parse env_gap)) with [A0; A1] in Hget.
    rewrite Hfirst in Hget. injection Hget as <-. reflexivity.
Defined.
End OnCases.
